(** * clarity-decode: the decode dispatcher and its version gate

    A shallow embedding of [packages/clarity-decode/src/clarity.ts]
    ([decode] and [parseVersion]) together with the JavaScript primitives
    the two functions rely on, followed by the properties of the
    dispatcher that the specification states.

    Conventions of the embedding:
    - a JavaScript string is a [string]; every character stands for one
      code unit, so [String.length] is [.length];
    - a JavaScript number that holds an integer is [Num z]; [NaN] is kept
      apart because [parseInt] produces it and the comparisons of the
      version gate treat it specially.  Integers are not rounded to
      doubles (exact below 2^53);
    - an object used as a bag of optional fields ([DecodedPayload]) is a
      [gmap] from field name to value; [=== undefined] is a failed lookup;
    - [decode] reads the clock, writes to the console and drives the
      stateful layout module: the clock reading is an argument and the
      console and layout state are threaded explicitly ([World]). *)

From Stdlib Require Import ZArith String Ascii List Lia Sorted Permutation.
From stdpp Require Import gmap strings list fin_maps pretty.

Open Scope string_scope.
Open Scope list_scope.
Open Scope Z_scope.

(** ** JavaScript numbers *)

Module Js.

Inductive number : Type :=
  | NaN
  | Num (z : Z).

(** [a !== b] on numbers: [NaN] differs from everything, itself included. *)
Definition strict_neq (a b : number) : bool :=
  match a, b with
  | Num x, Num y => negb (x =? y)
  | _, _ => true
  end.

(** [a === b] on numbers. *)
Definition strict_eq (a b : number) : bool := negb (strict_neq a b).

(** [a - b]. *)
Definition sub (a b : number) : number :=
  match a, b with
  | Num x, Num y => Num (x - y)
  | _, _ => NaN
  end.

(** [Math.abs(a)]. *)
Definition Math_abs (a : number) : number :=
  match a with
  | Num x => Num (Z.abs x)
  | NaN => NaN
  end.

(** [a > b]: false as soon as one side is [NaN]. *)
Definition gt (a b : number) : bool :=
  match a, b with
  | Num x, Num y => y <? x
  | _, _ => false
  end.

(** [a <= b]: false as soon as one side is [NaN]. *)
Definition le (a b : number) : bool :=
  match a, b with
  | Num x, Num y => x <=? y
  | _, _ => false
  end.

(** ** Strings *)

(** White space skipped by [parseInt]: TAB, LF, VT, FF, CR, SP, NBSP. *)
Definition is_white_space (c : ascii) : bool :=
  let n := nat_of_ascii c in
  ((9 <=? n) && (n <=? 13) || (n =? 32) || (n =? 160))%nat.

Definition digit_value (c : ascii) : option Z :=
  let n := nat_of_ascii c in
  if ((48 <=? n) && (n <=? 57))%nat then Some (Z.of_nat (n - 48)) else None.

Fixpoint trim_start (s : string) : string :=
  match s with
  | String c s' => if is_white_space c then trim_start s' else s
  | EmptyString => s
  end.

(** The longest run of decimal digits at the head of [s], read as an
    integer continuing [acc]; [seen] tells whether a digit was consumed. *)
Fixpoint read_digits (seen : bool) (acc : Z) (s : string) : option Z :=
  match s with
  | String c s' =>
      match digit_value c with
      | Some d => read_digits true (10 * acc + d) s'
      | None => if seen then Some acc else None
      end
  | EmptyString => if seen then Some acc else None
  end.

(** [parseInt(s, 10)]: leading white space is dropped, one sign is
    accepted and removed, then the longest prefix of decimal digits is
    read; without a digit the result is [NaN].  With radix 10 no [0x]
    prefix is recognised.  The digits are read as an exact integer: the
    result is the double [parseInt] returns for numerals below 2^53. *)
Definition parseInt (s : string) : number :=
  let s := trim_start s in
  let '(sign, s) :=
    match s with
    | String c s' =>
        if Ascii.eqb c "-" then (-1, s')
        else if Ascii.eqb c "+" then (1, s')
        else (1, s)
    | EmptyString => (1, s)
    end in
  match read_digits false 0 s with
  | Some z => Num (sign * z)
  | None => NaN
  end.

Fixpoint rev_string (acc s : string) : string :=
  match s with
  | String c s' => rev_string (String c acc) s'
  | EmptyString => acc
  end.

(** [s.split(sep)] for a non-empty separator: the pieces between the
    successive, non-overlapping occurrences of [sep], found left to
    right.  [cur] holds the current piece backwards; [skip] counts the
    characters of a matched separator that are still to be passed. *)
Fixpoint split_from (sep : string) (skip : nat) (cur : string) (s : string)
  : list string :=
  match s with
  | EmptyString => [rev_string EmptyString cur]
  | String c s' =>
      match skip with
      | S k => split_from sep k cur s'
      | O =>
          if String.prefix sep s
          then rev_string EmptyString cur
               :: split_from sep (String.length sep - 1) EmptyString s'
          else split_from sep 0 (String c cur) s'
      end
  end.

Definition split (sep s : string) : list string :=
  split_from sep 0 EmptyString s.

(** [s.substr(start, len)]: at most [len] characters from [start]. *)
Definition substr (start len : nat) (s : string) : string :=
  String.substring start len s.

(** ** [Array.prototype.sort]

    ECMAScript requires [sort] to be stable: with a consistent comparator
    the result is the one ordered arrangement that keeps equal elements
    in their original order.  It is computed here by insertion: an
    element moves past exactly the elements the comparator puts strictly
    before it. *)
Section Sort.
Context {A : Type} (cmp : A -> A -> Z).

Fixpoint insert (x : A) (l : list A) : list A :=
  match l with
  | [] => [x]
  | y :: l' => if 0 <? cmp x y then y :: insert x l' else x :: l
  end.

Fixpoint sort (l : list A) : list A :=
  match l with
  | [] => []
  | x :: l' => insert x (sort l')
  end.
End Sort.

End Js.

(** ** The version gate *)

Record DecodedVersion : Type := {
  major : Js.number;
  minor : Js.number;
  patch : Js.number;
  beta : Js.number
}.

Definition set_major (n : Js.number) (v : DecodedVersion) : DecodedVersion :=
  {| major := n; minor := minor v; patch := patch v; beta := beta v |}.
Definition set_minor (n : Js.number) (v : DecodedVersion) : DecodedVersion :=
  {| major := major v; minor := n; patch := patch v; beta := beta v |}.
Definition set_patch (n : Js.number) (v : DecodedVersion) : DecodedVersion :=
  {| major := major v; minor := minor v; patch := n; beta := beta v |}.
Definition set_beta (n : Js.number) (v : DecodedVersion) : DecodedVersion :=
  {| major := major v; minor := minor v; patch := patch v; beta := n |}.

Definition zero_version : DecodedVersion :=
  {| major := Js.Num 0; minor := Js.Num 0; patch := Js.Num 0; beta := Js.Num 0 |}.

(** [parseVersion] of clarity.ts: [output] starts as the zero version and
    is assigned field by field.  [item i l] is [l[i]]; it is only used
    below the length tests, where the element exists. *)
Definition item (i : nat) (l : list string) : string := nth i l EmptyString.

Definition parseVersion (ver : string) : DecodedVersion :=
  let output := zero_version in
  let parts := Js.split "." ver in
  if (length parts =? 3)%nat then
    let subparts := Js.split "-b" (item 2 parts) in
    let output := set_major (Js.parseInt (item 0 parts)) output in
    let output := set_minor (Js.parseInt (item 1 parts)) output in
    if (length subparts =? 2)%nat then
      let output := set_patch (Js.parseInt (item 0 subparts)) output in
      set_beta (Js.parseInt (item 1 subparts)) output
    else set_patch (Js.parseInt (item 2 parts)) output
  else output.

(** The condition under which [decode] throws [Invalid version]. *)
Definition version_mismatch (jsonVersion codeVersion : DecodedVersion) : bool :=
  Js.strict_neq (major jsonVersion) (major codeVersion)
  || Js.strict_neq (minor jsonVersion) (minor codeVersion)
  || Js.gt (Js.Math_abs (Js.sub (patch jsonVersion) (patch codeVersion))) (Js.Num 1).

(** The compatibility check passes when [decode] does not throw. *)
Definition check_passes (jsonVersion codeVersion : DecodedVersion) : bool :=
  negb (version_mismatch jsonVersion codeVersion).

(** ** Wire types ([clarity-js/types/data.d.ts]) *)

Module Data.

(** [Token = string | number | number[] | string[]]. *)
Inductive Token : Type :=
  | TString (s : string)
  | TNumber (n : Z)
  | TNumbers (l : list Z)
  | TStrings (l : list string).

(** One encoded event, a [Token[]] whose element 0 is the timestamp and
    whose element 1 is the event-type code ([a[0] as number],
    [switch (entry[1])]); [fields] are the elements from index 2 on. *)
Record Entry : Type := {
  time : Z;
  event : Z;
  fields : list Token
}.

(** Modelled from the spec: the [Payload] interface that clarity.ts reads
    ([json.e], [json.a], [json.p]) is missing from the declarations at
    hand, which still have [e] and [d]; the shape is
    [{ "e": Token, "a": Token[], "p"?: Token[] }]. *)
Record Payload : Type := {
  e : list Token;
  a : list Entry;
  p : option (list Entry)
}.

Inductive Upload : Type := Async | Beacon.
Inductive BooleanFlag : Type := False_ | True_.

Record Envelope : Type := {
  projectId : Z;
  userId : Z;
  sessionId : Z;
  pageId : Z;
  sequence : Z;
  start : Z;
  duration : Z;
  version : string;
  upload : Upload;
  end_ : BooleanFlag
}.

(** The members of [const enum Event] that the [switch] of [decode] names,
    in the order of its [case] labels ([Variable_] is [Event.Variable]). *)
Module Event.
Inductive t : Type :=
  | Baseline | Ping | Limit | Upgrade | Metric | Dimension | Summary
  | Custom | Variable_ | Upload
  | MouseDown | MouseUp | MouseMove | MouseWheel | DoubleClick
  | TouchStart | TouchCancel | TouchEnd | TouchMove
  | Click | Scroll | Resize | Selection | Timeline | Input | Unload
  | Visibility
  | Box | Region | Discover | Mutation | Document
  | ScriptError | ImageError | Log
  | Connection | Navigation.

Definition cases : list t :=
  [ Baseline; Ping; Limit; Upgrade; Metric; Dimension; Summary;
    Custom; Variable_; Upload;
    MouseDown; MouseUp; MouseMove; MouseWheel; DoubleClick;
    TouchStart; TouchCancel; TouchEnd; TouchMove;
    Click; Scroll; Resize; Selection; Timeline; Input; Unload;
    Visibility;
    Box; Region; Discover; Mutation; Document;
    ScriptError; ImageError; Log;
    Connection; Navigation ].
End Event.

(** [const enum Metric]. *)
Module Metric.
Definition ClientTimestamp : Z := 0.
Definition Playback : Z := 1.
Definition TotalBytes : Z := 2.
Definition LayoutCost : Z := 3.
Definition TotalCost : Z := 4.
Definition InvokeCount : Z := 5.
Definition ThreadBlockedTime : Z := 6.
Definition LongTaskCount : Z := 7.
Definition LargestPaint : Z := 8.
Definition CumulativeLayoutShift : Z := 9.
Definition FirstInputDelay : Z := 10.
End Metric.

End Data.

(** ** Decoded types *)

(** Modelled from the spec: the event types of [../types/data] and its
    siblings are missing.  The dispatcher looks into a decoded event at
    one place only, [metric.data[Data.Metric.TotalBytes] = ...], so an
    event is kept as the number-indexed entries of its [data] object
    ([MetricData] is [{ [key: number]: number }]) and an uninterpreted
    remainder. *)
Record DecodedEvent (R : Type) : Type := {
  data : gmap Z Z;
  rest : R
}.
Arguments data {R} _.
Arguments rest {R} _.

(** [ev.data[key] = value]. *)
Definition set_data {R} (key value : Z) (ev : DecodedEvent R) : DecodedEvent R :=
  {| data := <[key := value]> (data ev); rest := rest ev |}.

(** Modelled from the spec: [DecodedPayload] of [../types/data] is
    missing; it is [{ timestamp, envelope, <bucket>?: DecodedEvent[] }].
    The optional bucket fields are the map [buckets]: a field is
    [undefined] exactly when the lookup fails. *)
Record DecodedPayload (R : Type) : Type := {
  timestamp : Z;
  envelope : Data.Envelope;
  buckets : gmap string (list (DecodedEvent R))
}.
Arguments timestamp {R} _.
Arguments envelope {R} _.
Arguments buckets {R} _.

(** [if (payload.b === undefined) { payload.b = []; }] *)
Definition create_if_undefined {R} (bucket : string)
    (m : gmap string (list (DecodedEvent R))) : gmap string (list (DecodedEvent R)) :=
  match m !! bucket with
  | None => <[bucket := []]> m
  | Some _ => m
  end.

(** [if (payload.b === undefined) { payload.b = []; } payload.b.push(ev);] *)
Definition push {R} (bucket : string) (ev : DecodedEvent R)
    (payload : DecodedPayload R) : DecodedPayload R :=
  {| timestamp := timestamp payload;
     envelope := envelope payload;
     buckets := alter (fun l => l ++ [ev]) bucket
                  (create_if_undefined bucket (buckets payload)) |}.

(** What [decode] can throw. *)
Inductive Exception : Type :=
| SyntaxError
| Error (message : string).

Inductive Outcome (R : Type) : Type :=
| Throw (ex : Exception)
| Return (payload : DecodedPayload R).
Arguments Throw {R} _.
Arguments Return {R} _.

(** The five category decoders imported by clarity.ts. *)
Inductive Category : Type :=
| Data_ | Interaction | Layout | Diagnostic | Performance.

(** The [switch] of [decode] as a table: for each [case] label the module
    whose [decode] is called and the field the result is pushed to. *)
Definition handler (ev : Data.Event.t) : Category * string :=
  match ev with
  | Data.Event.Baseline => (Data_, "baseline")
  | Data.Event.Ping => (Data_, "ping")
  | Data.Event.Limit => (Data_, "limit")
  | Data.Event.Upgrade => (Data_, "upgrade")
  | Data.Event.Metric => (Data_, "metric")
  | Data.Event.Dimension => (Data_, "dimension")
  | Data.Event.Summary => (Data_, "summary")
  | Data.Event.Custom => (Data_, "custom")
  | Data.Event.Variable_ => (Data_, "variable")
  | Data.Event.Upload => (Data_, "upload")
  | Data.Event.MouseDown
  | Data.Event.MouseUp
  | Data.Event.MouseMove
  | Data.Event.MouseWheel
  | Data.Event.DoubleClick
  | Data.Event.TouchStart
  | Data.Event.TouchCancel
  | Data.Event.TouchEnd
  | Data.Event.TouchMove => (Interaction, "pointer")
  | Data.Event.Click => (Interaction, "click")
  | Data.Event.Scroll => (Interaction, "scroll")
  | Data.Event.Resize => (Interaction, "resize")
  | Data.Event.Selection => (Interaction, "selection")
  | Data.Event.Timeline => (Interaction, "timeline")
  | Data.Event.Input => (Interaction, "input")
  | Data.Event.Unload => (Interaction, "unload")
  | Data.Event.Visibility => (Interaction, "visibility")
  | Data.Event.Box => (Layout, "box")
  | Data.Event.Region => (Layout, "region")
  | Data.Event.Discover
  | Data.Event.Mutation => (Layout, "dom")
  | Data.Event.Document => (Layout, "doc")
  | Data.Event.ScriptError => (Diagnostic, "script")
  | Data.Event.ImageError => (Diagnostic, "image")
  | Data.Event.Log => (Diagnostic, "log")
  | Data.Event.Connection => (Performance, "connection")
  | Data.Event.Navigation => (Performance, "navigation")
  end.

(** ** What clarity.ts imports

    The running [version] and the values of [const enum Event] come from
    clarity-js; [data], [interaction], [layout], [diagnostic] and
    [performance] are the sibling modules; [JSON] is the global.  The
    declaration of [Event] at hand predates clarity.ts (it lacks [Limit],
    [Summary], [Custom], [Variable] and [Box]), so the values of the
    members are left open.  Only the layout module keeps state between
    calls.  [JSON_parse] covers the inputs that [JSON.parse] rejects
    ([None]) and those it turns into a document of the [Payload] shape
    ([Some]); what [decode] does with a document of another shape is not
    modelled. *)
Class Imports : Type := {
  Rest : Type;
  LayoutState : Type;
  version : string;
  Event_value : Data.Event.t -> Z;
  JSON_parse : string -> option Data.Payload;
  JSON_stringify : Data.Entry -> string;
  data_envelope : list Data.Token -> Data.Envelope;
  data_decode : Data.Entry -> DecodedEvent Rest;
  interaction_decode : Data.Entry -> DecodedEvent Rest;
  diagnostic_decode : Data.Entry -> DecodedEvent Rest;
  performance_decode : Data.Entry -> DecodedEvent Rest;
  layout_reset : LayoutState -> LayoutState;
  layout_decode : LayoutState -> Data.Entry -> DecodedEvent Rest * LayoutState
}.

(** What [decode] acts on besides its result: the lines written with
    [console.error] and the state of the layout module. *)
Record World `{I : Imports} : Type := {
  console : list string;
  layout : LayoutState
}.

Section Decode.
Context `{I : Imports}.

Definition console_error (line : string) (w : World) : World :=
  {| console := console w ++ [line]; layout := layout w |}.

Definition reset_layout (w : World) : World :=
  {| console := console w; layout := layout_reset (layout w) |}.

(** [<category>.decode(entry)]. *)
Definition decode_with (category : Category) (w : World) (entry : Data.Entry)
  : DecodedEvent Rest * World :=
  match category with
  | Data_ => (data_decode entry, w)
  | Interaction => (interaction_decode entry, w)
  | Diagnostic => (diagnostic_decode entry, w)
  | Performance => (performance_decode entry, w)
  | Layout =>
      let '(decoded, st) := layout_decode (layout w) entry in
      (decoded, {| console := console w; layout := st |})
  end.

(** [switch (entry[1])]: the first [case] label whose value is strictly
    equal to the code, if any. *)
Definition switch_case (code : Z) : option Data.Event.t :=
  List.find (fun ev => code =? Event_value ev) Data.Event.cases.

(** The body of the [for] loop of [decode]. *)
Definition dispatch (input : string) (st : DecodedPayload Rest * World)
    (entry : Data.Entry) : DecodedPayload Rest * World :=
  let '(payload, w) := st in
  match switch_case (Data.event entry) with
  | Some Data.Event.Metric =>
      let metric := data_decode entry in
      let metric :=
        set_data Data.Metric.TotalBytes (Z.of_nat (String.length input)) metric in
      (push "metric" metric payload, w)
  | Some ev =>
      let '(category, bucket) := handler ev in
      let '(decoded, w) := decode_with category w entry in
      (push bucket decoded payload, w)
  | None =>
      (payload,
       console_error ("No handler for Event: " +:+ JSON_stringify entry) w)
  end.

(** [json.p ? json.a.concat(json.p) : json.a], then [sort] on element 0. *)
Definition merge (primary : list Data.Entry) (secondary : option (list Data.Entry))
  : list Data.Entry :=
  let encoded :=
    match secondary with
    | Some p => primary ++ p
    | None => primary
    end in
  Js.sort (fun a b => Data.time a - Data.time b) encoded.

Definition invalid_version (actual : string) (input : string) : string :=
  "Invalid version. Actual: " +:+ actual +:+ " | Expected: " +:+ version
    +:+ " (+/- 1) | " +:+ Js.substr 0 250 input.

(** [decode(input)], run when the clock reads [now] in the world [w]. *)
Definition decode (now : Z) (w : World) (input : string)
  : Outcome Rest * World :=
  match JSON_parse input with
  | None => (Throw SyntaxError, w)
  | Some json =>
      let envelope := data_envelope (Data.e json) in
      let timestamp := now in
      let payload :=
        {| timestamp := timestamp; envelope := envelope; buckets := ∅ |} in
      let encoded := merge (Data.a json) (Data.p json) in
      let jsonVersion := parseVersion (Data.version envelope) in
      let codeVersion := parseVersion version in
      if version_mismatch jsonVersion codeVersion
      then (Throw (Error (invalid_version (Data.version envelope) input)), w)
      else
        let w := reset_layout w in
        let '(payload, w) := fold_left (dispatch input) encoded (payload, w) in
        (Return payload, w)
  end.

End Decode.

(** ** The rules as the specification words them *)

(** [incoming.major == running.major && incoming.minor == running.minor
    && abs(incoming.patch - running.patch) <= 1]. *)
Definition isCompatible_spec (incoming running : DecodedVersion) : bool :=
  Js.strict_eq (major incoming) (major running)
  && Js.strict_eq (minor incoming) (minor running)
  && Js.le (Js.Math_abs (Js.sub (patch incoming) (patch running))) (Js.Num 1).

(** Split on [.]; exactly three parts or the zero version; the third part
    split on the beta delimiter gives patch and beta when there are two
    pieces, and is the patch otherwise, beta staying 0. *)
Definition parseVersion_spec (s : string) : DecodedVersion :=
  match Js.split "." s with
  | [ma; mi; third] =>
      match Js.split "-b" third with
      | [pa; be] =>
          {| major := Js.parseInt ma; minor := Js.parseInt mi;
             patch := Js.parseInt pa; beta := Js.parseInt be |}
      | _ =>
          {| major := Js.parseInt ma; minor := Js.parseInt mi;
             patch := Js.parseInt third; beta := Js.Num 0 |}
      end
  | _ => {| major := Js.Num 0; minor := Js.Num 0; patch := Js.Num 0; beta := Js.Num 0 |}
  end.

(** A version with integer components and no beta. *)
Definition release (ma mi pa : Z) : DecodedVersion :=
  {| major := Js.Num ma; minor := Js.Num mi; patch := Js.Num pa; beta := Js.Num 0 |}.

(** [sorted] is the stable ascending sort of [l] by [key]: the same
    elements, in non-decreasing key order, and for every key value the
    elements with that key in the order they have in [l]. *)
Definition stable_sort_of {A : Type} (key : A -> Z) (sorted l : list A) : Prop :=
  Permutation sorted l
  /\ StronglySorted (fun x y => key x <= key y) sorted
  /\ forall t : Z, filter (fun x => key x = t) sorted = filter (fun x => key x = t) l.

(** The category of a code: the field its tokens are pushed to. *)
Definition bucket_of `{I : Imports} (code : Z) : option string :=
  match switch_case code with
  | Some ev => Some (snd (handler ev))
  | None => None
  end.

(** The codes that the [switch] sends to the field [bucket]. *)
Definition codes_of `{I : Imports} (bucket : string) : gset Z :=
  list_to_set
    (filter (fun code => bucket_of code = Some bucket)
       (Event_value <$> Data.Event.cases)).

(** A token is handled when some [case] label matches its code. *)
Definition handled `{I : Imports} (entry : Data.Entry) : Prop :=
  is_Some (switch_case (Data.event entry)).

(** The line [console.error] writes for a token without handler. *)
Definition no_handler_line `{I : Imports} (entry : Data.Entry) : string :=
  "No handler for Event: " +:+ JSON_stringify entry.

(** [ev] is what one turn of the loop of [decode] pushes to the field
    [bucket] for the token [entry], in some state of the payload and of
    the world. *)
Definition pushes `{I : Imports} (input : string) (bucket : string)
    (entry : Data.Entry) (ev : DecodedEvent Rest) : Prop :=
  exists (payload : DecodedPayload Rest) (w : World),
    fst (dispatch input (payload, w) entry) = push bucket ev payload.

(** The event that the [case] of [label] builds from [entry] when the
    layout module is in state [st], and the state it leaves. *)
Definition decoded `{I : Imports} (input : string) (st : LayoutState)
    (label : Data.Event.t) (entry : Data.Entry) : DecodedEvent Rest * LayoutState :=
  match label with
  | Data.Event.Metric =>
      (set_data Data.Metric.TotalBytes (Z.of_nat (String.length input))
         (data_decode entry), st)
  | _ =>
      match fst (handler label) with
      | Data_ => (data_decode entry, st)
      | Interaction => (interaction_decode entry, st)
      | Diagnostic => (diagnostic_decode entry, st)
      | Performance => (performance_decode entry, st)
      | Layout => layout_decode st entry
      end
  end.

(** [ev] is the event that the [case] of some label routed to [bucket]
    builds from [entry]. *)
Definition built `{I : Imports} (input : string) (bucket : string)
    (entry : Data.Entry) (ev : DecodedEvent Rest) : Prop :=
  exists (label : Data.Event.t) (st : LayoutState),
    switch_case (Data.event entry) = Some label
    /\ snd (handler label) = bucket
    /\ ev = fst (decoded input st label entry).

(** [payload] with its [timestamp] replaced. *)
Definition with_timestamp {R} (t : Z) (payload : DecodedPayload R) : DecodedPayload R :=
  {| timestamp := t; envelope := envelope payload; buckets := buckets payload |}.

Definition outcome_with_timestamp {R} (t : Z) (o : Outcome R) : Outcome R :=
  match o with
  | Return payload => Return (with_timestamp t payload)
  | Throw ex => Throw ex
  end.

(** ** A sample instance of the imports

    Used to run [decode] on concrete documents.  The members of [Event]
    declared in [clarity-js/types/data.d.ts] keep their values there
    ([Page = 21] and [Tag = 22] have no [case]); the members it lacks are
    numbered after [Log]. *)
Module Sample.

Definition event_value (ev : Data.Event.t) : Z :=
  match ev with
  | Data.Event.Metric => 0 | Data.Event.Dimension => 1
  | Data.Event.Upload => 2 | Data.Event.Upgrade => 3
  | Data.Event.Discover => 4 | Data.Event.Mutation => 5
  | Data.Event.Region => 6 | Data.Event.Document => 7
  | Data.Event.Click => 8 | Data.Event.Scroll => 9
  | Data.Event.Resize => 10 | Data.Event.MouseMove => 11
  | Data.Event.MouseDown => 12 | Data.Event.MouseUp => 13
  | Data.Event.MouseWheel => 14 | Data.Event.DoubleClick => 15
  | Data.Event.TouchStart => 16 | Data.Event.TouchEnd => 17
  | Data.Event.TouchMove => 18 | Data.Event.TouchCancel => 19
  | Data.Event.Selection => 20 | Data.Event.Ping => 23
  | Data.Event.Unload => 24 | Data.Event.Input => 25
  | Data.Event.Visibility => 26 | Data.Event.Baseline => 27
  | Data.Event.Navigation => 28 | Data.Event.Connection => 29
  | Data.Event.ScriptError => 30 | Data.Event.ImageError => 31
  | Data.Event.Log => 32 | Data.Event.Timeline => 33
  | Data.Event.Limit => 34 | Data.Event.Summary => 35
  | Data.Event.Custom => 36 | Data.Event.Variable_ => 37
  | Data.Event.Box => 38
  end.

(** Key/value pairs from index 2 on, as the metric decoder reads them. *)
Fixpoint pairs (tokens : list Data.Token) : gmap Z Z :=
  match tokens with
  | Data.TNumber k :: Data.TNumber v :: tokens' => <[k := v]> (pairs tokens')
  | _ => ∅
  end.

Definition decode_data (entry : Data.Entry) : DecodedEvent Data.Entry :=
  {| data := pairs (Data.fields entry); rest := entry |}.

Definition decode_plain (entry : Data.Entry) : DecodedEvent Data.Entry :=
  {| data := ∅; rest := entry |}.

(** The layout state counts the tokens decoded since the last reset. *)
Definition decode_layout (st : nat) (entry : Data.Entry)
  : DecodedEvent Data.Entry * nat :=
  ({| data := {[ 0 := Z.of_nat st ]}; rest := entry |}, S st).

Definition token_text (t : Data.Token) : string :=
  match t with
  | Data.TNumber n => pretty n
  | Data.TString s => s
  | Data.TNumbers l => String.concat "," (map pretty l)
  | Data.TStrings l => String.concat "," l
  end.

Definition stringify (entry : Data.Entry) : string :=
  "[" +:+ String.concat ","
            (pretty (Data.time entry) :: pretty (Data.event entry)
               :: map token_text (Data.fields entry)) +:+ "]".

Definition token_version (t : Data.Token) : string :=
  match t with
  | Data.TString s => s
  | _ => EmptyString
  end.

Definition token_number (t : Data.Token) : Z :=
  match t with
  | Data.TNumber n => n
  | _ => 0
  end.

Definition envelope_of (tokens : list Data.Token) : Data.Envelope :=
  {| Data.sequence := token_number (nth 0 tokens (Data.TNumber 0));
     Data.start := token_number (nth 1 tokens (Data.TNumber 0));
     Data.duration := token_number (nth 2 tokens (Data.TNumber 0));
     Data.version := token_version (nth 3 tokens (Data.TNumber 0));
     Data.upload := Data.Async;
     Data.end_ := Data.False_;
     Data.projectId := 1; Data.userId := 2; Data.sessionId := 3;
     Data.pageId := 4 |}.

Definition entry (time event : Z) (fields : list Z) : Data.Entry :=
  {| Data.time := time; Data.event := event;
     Data.fields := map Data.TNumber fields |}.

Definition dq : string := String (ascii_of_nat 34) EmptyString.

Definition envelope_text (ver : string) : string :=
  "{" +:+ dq +:+ "e" +:+ dq +:+ ":[1,0,0," +:+ dq +:+ ver +:+ dq +:+ "],"
      +:+ dq +:+ "a" +:+ dq +:+ ":".

(** Two metric tokens, a pointer token and a [Page] token on the primary
    channel; a DOM-discovery and a ping token on the secondary one. *)
Definition events_a : list Data.Entry :=
  [entry 20 0 [2; 7]; entry 10 13 [5; 6]; entry 30 21 []; entry 10 0 [2; 1]].
Definition events_p : list Data.Entry :=
  [entry 10 4 []; entry 5 23 [1]].

Definition events_text : string :=
  "[[20,0,2,7],[10,13,5,6],[30,21],[10,0,2,1]]," +:+ dq +:+ "p" +:+ dq
    +:+ ":[[10,4],[5,23,1]]}".

Definition input_ok : string := envelope_text "1.2.1" +:+ events_text.
Definition input_minor : string := envelope_text "1.3.0" +:+ events_text.
Definition input_patch_nan : string := envelope_text "1.2.x" +:+ events_text.
Definition input_major_nan : string := envelope_text "x.2.0" +:+ events_text.
Definition input_primary_only : string :=
  envelope_text "1.2.0" +:+ "[[20,0,2,7],[10,13,5,6],[30,21],[10,0,2,1]]}".

Definition document (ver : string) (secondary : option (list Data.Entry))
  : Data.Payload :=
  {| Data.e := [Data.TNumber 1; Data.TNumber 0; Data.TNumber 0; Data.TString ver];
     Data.a := events_a;
     Data.p := secondary |}.

(** [JSON.parse] on the sample documents; anything else is rejected. *)
Definition parse (input : string) : option Data.Payload :=
  if String.eqb input input_ok then Some (document "1.2.1" (Some events_p))
  else if String.eqb input input_minor then Some (document "1.3.0" (Some events_p))
  else if String.eqb input input_patch_nan then Some (document "1.2.x" (Some events_p))
  else if String.eqb input input_major_nan then Some (document "x.2.0" (Some events_p))
  else if String.eqb input input_primary_only then Some (document "1.2.0" None)
  else None.

#[local] Instance imports : Imports := {|
  Rest := Data.Entry;
  LayoutState := nat;
  version := "1.2.0";
  Event_value := event_value;
  JSON_parse := parse;
  JSON_stringify := stringify;
  data_envelope := envelope_of;
  data_decode := decode_data;
  interaction_decode := decode_plain;
  diagnostic_decode := decode_plain;
  performance_decode := decode_plain;
  layout_reset := fun _ => O;
  layout_decode := decode_layout
|}.

Definition world : World := {| console := []; layout := 5%nat |}.
Definition later_world : World :=
  {| console := ["earlier line"]; layout := 7%nat |}.

(** The run on the compatible document when the clock reads 1000. *)
Definition run_ok : Outcome Data.Entry * World := decode 1000 world input_ok.

Definition returned (o : Outcome Data.Entry) : DecodedPayload Data.Entry :=
  match o with
  | Return payload => payload
  | Throw _ => {| timestamp := 0; envelope := envelope_of []; buckets := ∅ |}
  end.

Definition payload_ok : DecodedPayload Data.Entry := returned (fst run_ok).

(** The two metric events of that run; the document is 91 characters
    long. *)
Definition metrics_ok : list (DecodedEvent Data.Entry) :=
  [ set_data 2 91 (decode_data (entry 10 0 [2; 1]));
    set_data 2 91 (decode_data (entry 20 0 [2; 7])) ].

End Sample.

(** ** Vocabulary for the further properties *)

(** Whether the [case] that matches the token calls [layout.decode]. *)
Definition layout_token `{I : Imports} (entry : Data.Entry) : bool :=
  match switch_case (Data.event entry) with
  | Some label =>
      match fst (handler label) with
      | Layout => true
      | _ => false
      end
  | None => false
  end.

(** What the [case] of [label] pushes for a token when it does not go
    through the layout module: the decoder of its category applied to the
    token, with the [TotalBytes] entry set for [Metric]. *)
Definition stateless_event `{I : Imports} (input : string) (label : Data.Event.t)
  : option (Data.Entry -> DecodedEvent Rest) :=
  match label with
  | Data.Event.Metric =>
      Some (fun entry =>
              set_data Data.Metric.TotalBytes (Z.of_nat (String.length input))
                (data_decode entry))
  | _ =>
      match fst (handler label) with
      | Data_ => Some data_decode
      | Interaction => Some interaction_decode
      | Diagnostic => Some diagnostic_decode
      | Performance => Some performance_decode
      | Layout => None
      end
  end.

(** The fields that the [switch] of [decode] can create, in its order. *)
Definition field_names : list string :=
  [ "baseline"; "ping"; "limit"; "upgrade"; "metric"; "dimension"; "summary";
    "custom"; "variable"; "upload"; "pointer"; "click"; "scroll"; "resize";
    "selection"; "timeline"; "input"; "unload"; "visibility"; "box"; "region";
    "dom"; "doc"; "script"; "image"; "log"; "connection"; "navigation" ].

(** The number of events a payload holds, all fields together. *)
Definition total_events {R : Type} (m : gmap string (list (DecodedEvent R))) : nat :=
  map_fold (fun _ l n => (length l + n)%nat) 0%nat m.

(** A second instance of the imports: the sample one with another
    running version, and a parser that also knows a document declaring
    the two-part version [2.0]. *)
Module Sample2.

Definition input_two_parts : string :=
  Sample.envelope_text "2.0" +:+ Sample.events_text.

Definition parse (input : string) : option Data.Payload :=
  if String.eqb input input_two_parts
  then Some (Sample.document "2.0" (Some Sample.events_p))
  else Sample.parse input.

Definition imports_running (running : string) : Imports := {|
  Rest := Data.Entry;
  LayoutState := nat;
  version := running;
  Event_value := Sample.event_value;
  JSON_parse := parse;
  JSON_stringify := Sample.stringify;
  data_envelope := Sample.envelope_of;
  data_decode := Sample.decode_data;
  interaction_decode := Sample.decode_plain;
  diagnostic_decode := Sample.decode_plain;
  performance_decode := Sample.decode_plain;
  layout_reset := fun _ => O;
  layout_decode := Sample.decode_layout
|}.

Definition world (running : string) : @World (imports_running running) :=
  @Build_World (imports_running running) [] 5%nat.

End Sample2.

(** Decimal numerals, to write version strings: the character of a
    digit, the string of a list of digits and the number it denotes. *)
Definition digit_char (d : nat) : ascii := ascii_of_nat (48 + d).

Fixpoint numeral (ds : list nat) : string :=
  match ds with
  | [] => EmptyString
  | d :: ds' => String (digit_char d) (numeral ds')
  end.

Definition numeral_value (ds : list nat) : Z :=
  fold_left (fun acc d => 10 * acc + Z.of_nat d) ds 0.

Definition digits (ds : list nat) : Prop :=
  ds <> [] /\ Forall (fun d => (d < 10)%nat) ds.

(** Whether the character [c] occurs in [s]. *)
Fixpoint occurs (c : ascii) (s : string) : bool :=
  match s with
  | EmptyString => false
  | String c' s' => Ascii.eqb c c' || occurs c s'
  end.

(** ** The baseline module of clarity-js ([src/unnamed/part_002])

    The module keeps three variables: the exported [state], and the
    private [buffer] and [update].  [time()] is the clock, read when a
    baseline is published; [encode] belongs to a sibling module and is
    recorded as the list of events it was called with (it cannot assign
    the variables of this module, which exports [state] only).  The
    coordinates are numbers that the module stores and never computes
    with. *)
Module Baseline.

(** [Event.Baseline] and [Event.Scroll] in the declaration the module
    imports, [clarity-js/types/data.d.ts]. *)
Definition Event_Baseline : Z := 27.
Definition Event_Scroll : Z := 9.

Record BaselineData : Type := {
  scrollX : Js.number;
  scrollY : Js.number;
  pointerX : Js.number;
  pointerY : Js.number
}.

(** [data] is [null] when a state is built from a [null] buffer. *)
Record BaselineState : Type := {
  time : Z;
  event : Z;
  data : option BaselineData
}.

(** The variables of the module; [None] is [null]. *)
Record Vars : Type := {
  state : option BaselineState;
  buffer : option BaselineData;
  update : bool
}.

(** The module as it is loaded. *)
Definition loaded : Vars :=
  {| state := None; buffer := None; update := false |}.

Definition reset (now : Z) (m : Vars) : Vars :=
  {| state :=
       if update m
       then Some {| time := now; event := Event_Baseline; data := buffer m |}
       else state m;
     buffer :=
       Some {| scrollX := Js.Num 0; scrollY := Js.Num 0;
               pointerX := Js.Num 0; pointerY := Js.Num 0 |};
     update := false |}.

Definition start (now : Z) (m : Vars) : Vars := reset now m.

(** The assignments of [track] to the object [buffer] points to. *)
Definition track_buffer (event : Z) (x y : Js.number) (b : BaselineData)
  : BaselineData :=
  if event =? Event_Scroll
  then {| scrollX := x; scrollY := y;
          pointerX := pointerX b; pointerY := pointerY b |}
  else {| scrollX := scrollX b; scrollY := scrollY b;
          pointerX := x; pointerY := y |}.

(** [track(event, x, y)]; [None] is the [TypeError] of assigning to a
    property of [null], raised before [update] is set. *)
Definition track (event : Z) (x y : Js.number) (m : Vars) : option Vars :=
  match buffer m with
  | None => None
  | Some b =>
      Some {| state := state m;
              buffer := Some (track_buffer event x y b);
              update := true |}
  end.

(** [compute()]: the calls it makes to [encode]. *)
Definition compute (m : Vars) : list Z :=
  if update m then [Event_Baseline] else [].

Definition end_ (now : Z) (m : Vars) : Vars := reset now m.

(** The calls a user of the module can make. *)
Inductive Call : Type :=
| Start (now : Z)
| Reset (now : Z)
| Track (event : Z) (x y : Js.number)
| Compute
| End_ (now : Z).

(** One call, on the variables and the events encoded so far. *)
Definition step (c : Call) (s : Vars * list Z) : option (Vars * list Z) :=
  match c with
  | Start now => Some (start now (fst s), snd s)
  | Reset now => Some (reset now (fst s), snd s)
  | End_ now => Some (end_ now (fst s), snd s)
  | Track event x y =>
      match track event x y (fst s) with
      | Some m => Some (m, snd s)
      | None => None
      end
  | Compute => Some (fst s, snd s ++ compute (fst s))
  end.

(** A sequence of calls, stopping at the first exception. *)
Fixpoint run (calls : list Call) (s : Vars * list Z) : option (Vars * list Z) :=
  match calls with
  | [] => Some s
  | c :: calls' =>
      match step c s with
      | Some s' => run calls' s'
      | None => None
      end
  end.

Definition is_track (c : Call) : bool :=
  match c with
  | Track _ _ _ => true
  | _ => false
  end.

End Baseline.

(** What every call keeps once the module was started: the buffer
    exists, and a published state holds its data. *)
Definition baseline_ready (m : Baseline.Vars) : Prop :=
  Baseline.buffer m <> None
  /\ forall s : Baseline.BaselineState,
       Baseline.state m = Some s -> Baseline.data s <> None.

(** The calls to [layout.decode] on a sequence of tokens, from the
    state [st] on: each token with the event it yields. *)
Fixpoint layout_scan `{I : Imports} (st : LayoutState) (entries : list Data.Entry)
  : list (Data.Entry * DecodedEvent Rest) :=
  match entries with
  | [] => []
  | entry :: entries' =>
      (entry, fst (layout_decode st entry))
        :: layout_scan (snd (layout_decode st entry)) entries'
  end.

(** A field after more events were pushed to it. *)
Definition field_append {R : Type} (old : option (list (DecodedEvent R)))
    (evs : list (DecodedEvent R)) : option (list (DecodedEvent R)) :=
  match evs with
  | [] => old
  | _ => Some (default [] old ++ evs)
  end.

(** * Properties *)

(** ** The version gate *)

Lemma gt_le_num (x y : Z) :
  negb (Js.gt (Js.Num x) (Js.Num y)) = Js.le (Js.Num x) (Js.Num y).
Proof.
  simpl. destruct (Z.ltb_spec y x), (Z.leb_spec x y); simpl; try reflexivity; lia.
Qed.

Lemma check_passes_unfold (incoming running : DecodedVersion) :
  check_passes incoming running =
  Js.strict_eq (major incoming) (major running)
  && Js.strict_eq (minor incoming) (minor running)
  && negb (Js.gt (Js.Math_abs (Js.sub (patch incoming) (patch running))) (Js.Num 1)).
Proof.
  unfold check_passes, version_mismatch, Js.strict_eq.
  rewrite !negb_orb. reflexivity.
Qed.

(** The check fails exactly on the versions that are incompatible under
    the rule of the specification, those apart that agree on major and
    minor and have a patch component that is not a number. *)
Lemma check_fails_iff (incoming running : DecodedVersion) :
  check_passes incoming running = false
  <-> isCompatible_spec incoming running = false
      /\ (Js.strict_eq (major incoming) (major running)
          && Js.strict_eq (minor incoming) (minor running) = true ->
          patch incoming <> Js.NaN /\ patch running <> Js.NaN).
Proof.
  rewrite check_passes_unfold. unfold isCompatible_spec.
  destruct (Js.strict_eq (major incoming) (major running)
            && Js.strict_eq (minor incoming) (minor running));
    destruct (patch incoming) as [|x], (patch running) as [|y]; simpl;
    try rewrite gt_le_num; simpl.
  all: split; [intros H | intros [H Hn]].
  all: try discriminate H.
  all: try reflexivity.
  all: try (destruct (Hn eq_refl) as [H1 H2]; congruence).
  all: try (split; [reflexivity | intros Ht; discriminate Ht]).
  - split; [| intros _; split; discriminate].
    destruct (Z.ltb_spec 1 (Z.abs (x - y))), (Z.leb_spec (Z.abs (x - y)) 1);
      simpl in *; try reflexivity; try discriminate H; lia.
  - destruct (Z.ltb_spec 1 (Z.abs (x - y))), (Z.leb_spec (Z.abs (x - y)) 1);
      simpl in *; try reflexivity; try discriminate H; lia.
Qed.

(** C1, as the code has it.  The check passes exactly when major and
    minor are strictly equal and the patch distance is not greater than
    1: with integer patch components this is the rule of the
    specification; with a [NaN] patch component the patch comparison
    never fails, so major and minor alone decide.  The beta component
    does not take part, and the four rows of the truth table hold. *)
Theorem check_passes_rule (incoming running : DecodedVersion) :
  check_passes incoming running =
    match patch incoming, patch running with
    | Js.Num _, Js.Num _ => isCompatible_spec incoming running
    | _, _ =>
        Js.strict_eq (major incoming) (major running)
        && Js.strict_eq (minor incoming) (minor running)
    end
  /\ (forall b b' : Js.number,
        check_passes (set_beta b incoming) (set_beta b' running)
        = check_passes incoming running)
  /\ check_passes (release 1 2 3) (release 1 2 4) = true
  /\ check_passes (release 1 2 3) (release 1 2 5) = false
  /\ check_passes (release 1 3 0) (release 1 2 0) = false
  /\ check_passes (release 2 2 0) (release 1 2 0) = false.
Proof.
  split; [| split; [intros; reflexivity | repeat split; reflexivity]].
  rewrite check_passes_unfold. unfold isCompatible_spec.
  destruct (patch incoming) as [|x], (patch running) as [|y]; simpl Js.sub;
    simpl Js.Math_abs.
  - simpl. now rewrite andb_true_r.
  - simpl. now rewrite andb_true_r.
  - simpl. now rewrite andb_true_r.
  - now rewrite gt_le_num.
Qed.

(** C1, as stated, fails on a parsed version whose patch is not a
    number: [1.2.x] passes the check against [1.2.0] although its patch
    is not within 1 of the running patch. *)
Lemma check_passes_not_spec_rule :
  ~ (check_passes (parseVersion "1.2.x") (parseVersion "1.2.0") = true
     <-> isCompatible_spec (parseVersion "1.2.x") (parseVersion "1.2.0") = true).
Proof.
  intros [Himp _]. specialize (Himp eq_refl). vm_compute in Himp. discriminate.
Qed.

(** C2.  [parseVersion] computes what the specification describes, on
    every string, and gives the three documented results. *)
Theorem parseVersion_meets_spec :
  (forall s : string, parseVersion s = parseVersion_spec s)
  /\ parseVersion "1.2.3-b7"
     = {| major := Js.Num 1; minor := Js.Num 2; patch := Js.Num 3; beta := Js.Num 7 |}
  /\ parseVersion "1.2.3"
     = {| major := Js.Num 1; minor := Js.Num 2; patch := Js.Num 3; beta := Js.Num 0 |}
  /\ parseVersion "bad"
     = {| major := Js.Num 0; minor := Js.Num 0; patch := Js.Num 0; beta := Js.Num 0 |}.
Proof.
  split; [| repeat split; reflexivity].
  intros s. unfold parseVersion, parseVersion_spec.
  destruct (Js.split "." s) as [|p0 [|p1 [|p2 [|p3 parts]]]]; try reflexivity.
  unfold item; simpl.
  destruct (Js.split "-b" p2) as [|s0 [|s1 [|s2 subparts]]]; reflexivity.
Qed.

(** ** The temporal merge *)

Section SortFacts.
Context {A : Type} (key : A -> Z).

Let by_key (x y : A) : Z := key x - key y.

Lemma insert_perm (x : A) (l : list A) :
  Permutation (Js.insert by_key x l) (x :: l).
Proof.
  induction l as [|y l IH]; simpl; [reflexivity |].
  destruct (0 <? by_key x y); [| reflexivity].
  rewrite IH. apply perm_swap.
Qed.

Lemma sort_perm (l : list A) : Permutation (Js.sort by_key l) l.
Proof.
  induction l as [|x l IH]; simpl; [reflexivity |].
  rewrite insert_perm. now apply perm_skip.
Qed.

Lemma insert_sorted (x : A) (l : list A) :
  StronglySorted (fun a b => key a <= key b) l ->
  StronglySorted (fun a b => key a <= key b) (Js.insert by_key x l).
Proof.
  induction 1 as [|y l Hl IH Hy]; simpl.
  - repeat constructor.
  - unfold by_key at 1. destruct (Z.ltb_spec 0 (key x - key y)) as [Hlt | Hge].
    + constructor; [exact IH |].
      rewrite insert_perm. constructor; [lia | exact Hy].
    + constructor; [constructor; assumption |].
      constructor; [lia |].
      eapply Forall_impl; [exact Hy |]. simpl. intros z Hz. lia.
Qed.

Lemma sort_sorted (l : list A) :
  StronglySorted (fun a b => key a <= key b) (Js.sort by_key l).
Proof.
  induction l as [|x l IH]; simpl; [constructor | now apply insert_sorted].
Qed.

(** Insertion only passes elements with a strictly smaller key, so it
    never changes the order among elements of one key. *)
Lemma insert_filter (t : Z) (x : A) (l : list A) :
  filter (fun y => key y = t) (Js.insert by_key x l)
  = filter (fun y => key y = t) (x :: l).
Proof.
  induction l as [|y l IH]; simpl; [reflexivity |].
  unfold by_key at 1. destruct (Z.ltb_spec 0 (key x - key y)) as [Hlt | Hge];
    [| reflexivity].
  rewrite (filter_cons _ y), IH, !(filter_cons _ x), (filter_cons _ y).
  destruct (decide (key y = t)), (decide (key x = t)); try reflexivity; lia.
Qed.

Lemma sort_filter (t : Z) (l : list A) :
  filter (fun y => key y = t) (Js.sort by_key l) = filter (fun y => key y = t) l.
Proof.
  induction l as [|x l IH]; simpl; [reflexivity |].
  rewrite insert_filter, !(filter_cons _ x), IH. reflexivity.
Qed.

Lemma sort_stable (l : list A) : stable_sort_of key (Js.sort by_key l) l.
Proof.
  split; [apply sort_perm | split; [apply sort_sorted | intros; apply sort_filter]].
Qed.
End SortFacts.

Lemma filter_sorted {A : Type} (R : A -> A -> Prop) (P : A -> Prop)
    `{!forall x, Decision (P x)} (l : list A) :
  StronglySorted R l -> StronglySorted R (filter P l).
Proof.
  induction 1 as [|x l Hl IH Hx]; [constructor |].
  rewrite filter_cons. destruct (decide (P x)); [| exact IH].
  constructor; [exact IH |].
  apply Forall_forall. intros y Hy. apply list_elem_of_filter in Hy as [_ Hy].
  rewrite Forall_forall in Hx. now apply Hx.
Qed.

(** C3.  The sequence the dispatcher walks is the stable ascending sort
    by timestamp of [a ++ p] when [p] is present and of [a] when it is
    absent; among tokens of one timestamp those of [a] come first, then
    those of [p], each group in its original order. *)
Theorem merge_is_stable_sort (a : list Data.Entry) :
  (forall p : list Data.Entry, stable_sort_of Data.time (merge a (Some p)) (a ++ p))
  /\ stable_sort_of Data.time (merge a None) a
  /\ (forall (p : list Data.Entry) (t : Z),
        filter (fun x => Data.time x = t) (merge a (Some p))
        = filter (fun x => Data.time x = t) a ++ filter (fun x => Data.time x = t) p).
Proof.
  split; [| split].
  - intros p. apply sort_stable.
  - apply sort_stable.
  - intros p t. unfold merge. rewrite (sort_filter Data.time), filter_app. reflexivity.
Qed.

(** ** The dispatcher *)

Section DispatchFacts.
Context `{I : Imports}.

#[local] Arguments dispatch : simpl never.

Lemma push_lookup (b b' : string) (ev : DecodedEvent Rest)
    (payload : DecodedPayload Rest) :
  buckets (push b ev payload) !! b'
  = if decide (b = b')
    then Some (default [] (buckets payload !! b) ++ [ev])
    else buckets payload !! b'.
Proof.
  unfold push, create_if_undefined; simpl.
  destruct (decide (b = b')) as [<- | Hne].
  - rewrite lookup_alter_eq.
    destruct (buckets payload !! b) as [l|] eqn:Hb; simpl.
    + now rewrite Hb.
    + now rewrite lookup_insert_eq.
  - rewrite lookup_alter_ne by exact Hne.
    destruct (buckets payload !! b); [reflexivity |].
    now rewrite lookup_insert_ne.
Qed.

(** One turn of the loop, case by case. *)
Lemma dispatch_eq (input : string) (payload : DecodedPayload Rest) (w : World)
    (entry : Data.Entry) :
  dispatch input (payload, w) entry
  = match switch_case (Data.event entry) with
    | Some label =>
        (push (snd (handler label))
           (fst (decoded input (layout w) label entry)) payload,
         {| console := console w;
            layout := snd (decoded input (layout w) label entry) |})
    | None => (payload, console_error (no_handler_line entry) w)
    end.
Proof.
  unfold dispatch. destruct (switch_case (Data.event entry)) as [label|];
    [| reflexivity].
  destruct w as [c st].
  destruct label; simpl; try reflexivity;
    destruct (layout_decode st entry); reflexivity.
Qed.

Lemma handler_metric (label : Data.Event.t) :
  snd (handler label) = "metric" -> label = Data.Event.Metric.
Proof. destruct label; simpl; intros Heq; try reflexivity; discriminate Heq. Qed.

Lemma built_pushes (input bucket : string) (entry : Data.Entry)
    (ev : DecodedEvent Rest) :
  built input bucket entry ev -> pushes input bucket entry ev.
Proof.
  intros (label & st & Hsw & <- & ->).
  exists {| timestamp := 0; envelope := data_envelope []; buckets := ∅ |},
         {| console := []; layout := st |}.
  rewrite dispatch_eq, Hsw. reflexivity.
Qed.

(** Conversely, [pushes] pins the event down: it is the one the matching
    [case] builds, in the layout state of the world at hand. *)
Lemma pushes_built (input bucket : string) (entry : Data.Entry)
    (ev : DecodedEvent Rest) :
  pushes input bucket entry ev -> built input bucket entry ev.
Proof.
  intros (payload & w & Heq). rewrite dispatch_eq in Heq.
  destruct (switch_case (Data.event entry)) as [label|] eqn:Hsw; simpl in Heq.
  - apply (f_equal (fun q => buckets q !! bucket)) in Heq.
    rewrite !push_lookup, (decide_True (P := bucket = bucket)) in Heq by reflexivity.
    destruct (decide (snd (handler label) = bucket)) as [Hb | Hb].
    + rewrite Hb in Heq. injection Heq as Heq.
      apply app_inj_tail in Heq as [_ Heq].
      exists label, (layout w). auto.
    + exfalso. destruct (buckets payload !! bucket) as [l|]; [| discriminate Heq].
      injection Heq as Heq. apply (f_equal length) in Heq.
      rewrite length_app in Heq. simpl in Heq. lia.
  - exfalso. apply (f_equal (fun q => buckets q !! bucket)) in Heq.
    rewrite push_lookup, decide_True in Heq by reflexivity.
    destruct (buckets payload !! bucket) as [l|]; [| discriminate Heq].
    injection Heq as Heq. apply (f_equal length) in Heq.
    rewrite length_app in Heq. simpl in Heq. lia.
Qed.

Lemma built_metric (input : string) (entry : Data.Entry) (ev : DecodedEvent Rest) :
  built input "metric" entry ev ->
  data ev !! Data.Metric.TotalBytes = Some (Z.of_nat (String.length input)).
Proof.
  intros (label & st & _ & Hb & ->).
  apply handler_metric in Hb. subst label. simpl.
  apply lookup_insert_eq.
Qed.

(** What the loop leaves in each field: the events built for the
    tokens routed to it, in the order of the tokens, after what the
    field held before. *)
Lemma loop_buckets (input : string) (entries : list Data.Entry) :
  forall (payload : DecodedPayload Rest) (w : World),
    let r := fold_left (dispatch input) entries (payload, w) in
    timestamp (fst r) = timestamp payload
    /\ envelope (fst r) = envelope payload
    /\ forall bucket : string, exists evs : list (DecodedEvent Rest),
         Forall2 (built input bucket)
           (filter (fun entry => bucket_of (Data.event entry) = Some bucket) entries)
           evs
         /\ buckets (fst r) !! bucket
            = match evs with
              | [] => buckets payload !! bucket
              | _ => Some (default [] (buckets payload !! bucket) ++ evs)
              end.
Proof.
  induction entries as [|entry rest IH]; intros payload w; simpl.
  - repeat split. intros bucket. exists []. split; [constructor | reflexivity].
  - rewrite dispatch_eq.
    destruct (switch_case (Data.event entry)) as [label|] eqn:Hsw.
    + match goal with
      | |- context [fold_left _ rest (?p1, ?w1)] =>
          destruct (IH p1 w1) as (Ht & He & Hb)
      end.
      split; [exact Ht | split; [exact He |]].
      intros bucket. destruct (Hb bucket) as (evs & Hall & Hlook).
      assert (Hbo : bucket_of (Data.event entry) = Some (snd (handler label)))
        by (unfold bucket_of; now rewrite Hsw).
      rewrite filter_cons, Hlook, push_lookup.
      destruct (decide (bucket_of (Data.event entry) = Some bucket)) as [Heq | Hne].
      * rewrite Hbo in Heq. injection Heq as Heq.
        exists (fst (decoded input (layout w) label entry) :: evs). split.
        -- constructor; [| exact Hall]. exists label, (layout w). auto.
        -- rewrite decide_True by exact Heq. subst bucket.
           destruct evs; simpl; [reflexivity |].
           now rewrite <- app_assoc.
      * exists evs. split; [exact Hall |].
        rewrite decide_False by congruence. reflexivity.
    + destruct (IH payload (console_error (no_handler_line entry) w))
        as (Ht & He & Hb).
      split; [exact Ht | split; [exact He |]].
      intros bucket. destruct (Hb bucket) as (evs & Hall & Hlook).
      assert (Hbo : bucket_of (Data.event entry) = None)
        by (unfold bucket_of; now rewrite Hsw).
      exists evs. rewrite filter_cons.
      rewrite decide_False by congruence. auto.
Qed.

(** Tokens without handler leave the payload and the layout state
    alone: the loop ends as it does on the handled tokens. *)
Lemma loop_skip (input : string) (entries : list Data.Entry) :
  forall (payload : DecodedPayload Rest) (w1 w2 : World),
    layout w1 = layout w2 ->
    let r := fold_left (dispatch input) entries (payload, w1) in
    let r' := fold_left (dispatch input) (filter handled entries) (payload, w2) in
    fst r = fst r' /\ layout (snd r) = layout (snd r').
Proof.
  induction entries as [|entry rest IH]; intros payload w1 w2 Hl; simpl.
  - auto.
  - rewrite filter_cons, dispatch_eq.
    destruct (decide (handled entry)) as [Hh | Hh]; unfold handled in Hh.
    + destruct Hh as [label Hsw]. rewrite Hsw. simpl.
      rewrite dispatch_eq, Hsw, Hl. apply IH. reflexivity.
    + destruct (switch_case (Data.event entry)) as [label|] eqn:Hsw;
        [exfalso; apply Hh; eauto |].
      apply IH. exact Hl.
Qed.

(** The console receives one line per token without handler, in the
    order of the tokens. *)
Lemma loop_console (input : string) (entries : list Data.Entry) :
  forall (payload : DecodedPayload Rest) (w : World),
    console (snd (fold_left (dispatch input) entries (payload, w)))
    = console w
      ++ map no_handler_line (filter (fun entry => ~ handled entry) entries).
Proof.
  induction entries as [|entry rest IH]; intros payload w; simpl.
  - now rewrite app_nil_r.
  - rewrite filter_cons, dispatch_eq.
    destruct (decide (~ handled entry)) as [Hh | Hh]; unfold handled in Hh.
    + destruct (switch_case (Data.event entry)) as [label|] eqn:Hsw;
        [exfalso; apply Hh; eauto |].
      rewrite IH. simpl. now rewrite <- app_assoc.
    + destruct (switch_case (Data.event entry)) as [label|] eqn:Hsw;
        [| exfalso; apply Hh; intros [? ?]; discriminate].
      now rewrite IH.
Qed.

(** The loop neither reads the timestamp of the payload nor the
    console. *)
Lemma loop_timestamp (input : string) (entries : list Data.Entry) (t : Z) :
  forall (payload : DecodedPayload Rest) (w1 w2 : World),
    layout w1 = layout w2 ->
    let r1 := fold_left (dispatch input) entries (payload, w1) in
    let r2 := fold_left (dispatch input) entries (with_timestamp t payload, w2) in
    fst r2 = with_timestamp t (fst r1) /\ layout (snd r2) = layout (snd r1).
Proof.
  induction entries as [|entry rest IH]; intros payload w1 w2 Hl; simpl.
  - auto.
  - rewrite !dispatch_eq.
    destruct (switch_case (Data.event entry)) as [label|] eqn:Hsw.
    + rewrite Hl.
      match goal with
      | |- context [fold_left _ rest (?p1, ?w1')] =>
          apply (IH p1 w1')
      end.
      reflexivity.
    + apply IH. exact Hl.
Qed.

(** A successful [decode] went through the parse, the version check
    and the loop. *)
Lemma decode_return (now : Z) (w : World) (input : string)
    (payload : DecodedPayload Rest) (w' : World) :
  decode now w input = (Return payload, w') ->
  exists json : Data.Payload,
    JSON_parse input = Some json
    /\ check_passes (parseVersion (Data.version (data_envelope (Data.e json))))
         (parseVersion version) = true
    /\ fold_left (dispatch input) (merge (Data.a json) (Data.p json))
         ({| timestamp := now; envelope := data_envelope (Data.e json);
             buckets := ∅ |}, reset_layout w)
       = (payload, w').
Proof.
  unfold decode, check_passes. intros Hdec.
  destruct (JSON_parse input) as [json|]; [| discriminate Hdec].
  exists json. split; [reflexivity |].
  destruct (version_mismatch _ _); [discriminate Hdec |].
  split; [reflexivity |].
  destruct (fold_left _ _ _) as [p1 w1]. congruence.
Qed.
End DispatchFacts.

(** ** [decode] *)

Lemma substr_prefix (n : nat) (s : string) :
  String.prefix (Js.substr 0 n s) s = true.
Proof.
  unfold Js.substr. revert s.
  induction n as [|n IH]; intros [|c s]; simpl; try reflexivity.
  destruct (ascii_dec c c) as [_ | Hne]; [apply IH | now elim Hne].
Qed.

Lemma substr_length (n : nat) (s : string) :
  String.length (Js.substr 0 n s) = Nat.min n (String.length s).
Proof.
  unfold Js.substr. revert s.
  induction n as [|n IH]; intros [|c s]; simpl; try reflexivity.
  now rewrite IH.
Qed.

Section DecodeFacts.
Context `{I : Imports}.

#[local] Arguments dispatch : simpl never.

(** C4, as the code has it.  When the declared version is incompatible
    with the running version under the rule of the specification, the
    case apart where the two agree on major and minor and a patch
    component is not a number, the check of [decode] fails: [decode]
    throws and leaves the world as it found it, so the layout module is
    not reset, nothing is decoded and no payload is returned.  The
    message holds the declared version, the running version and the
    first 250 characters of the input. *)
Theorem mismatch_throws_first (now : Z) (w : World) (input : string)
    (json : Data.Payload) :
  JSON_parse input = Some json ->
  isCompatible_spec (parseVersion (Data.version (data_envelope (Data.e json))))
    (parseVersion version) = false ->
  (Js.strict_eq (major (parseVersion (Data.version (data_envelope (Data.e json)))))
     (major (parseVersion version))
   && Js.strict_eq (minor (parseVersion (Data.version (data_envelope (Data.e json)))))
        (minor (parseVersion version)) = true ->
   patch (parseVersion (Data.version (data_envelope (Data.e json)))) <> Js.NaN
   /\ patch (parseVersion version) <> Js.NaN) ->
  decode now w input
  = (Throw (Error ("Invalid version. Actual: "
                     +:+ Data.version (data_envelope (Data.e json))
                     +:+ " | Expected: " +:+ version +:+ " (+/- 1) | "
                     +:+ Js.substr 0 250 input)),
     w)
  /\ String.prefix (Js.substr 0 250 input) input = true
  /\ String.length (Js.substr 0 250 input) = Nat.min 250 (String.length input)
  /\ check_passes (parseVersion (Data.version (data_envelope (Data.e json))))
       (parseVersion version) = false.
Proof.
  intros Hparse Hrule Hpatch.
  assert (Hcheck : check_passes
                     (parseVersion (Data.version (data_envelope (Data.e json))))
                     (parseVersion version) = false)
    by (apply check_fails_iff; split; assumption).
  split; [| split; [apply substr_prefix | split; [apply substr_length | exact Hcheck]]].
  unfold decode. rewrite Hparse.
  unfold check_passes in Hcheck. apply negb_false_iff in Hcheck.
  rewrite Hcheck. reflexivity.
Qed.

(** C5.  A token whose code matches no [case] costs one console line
    carrying the token, and nothing else: [decode] returns, and the
    payload and the layout state are those the loop reaches on the
    handled tokens alone, so no field is created or extended for the
    token and the tokens after it are decoded as usual. *)
Theorem unhandled_tokens_skipped (now : Z) (w : World) (input : string)
    (json : Data.Payload) :
  JSON_parse input = Some json ->
  check_passes (parseVersion (Data.version (data_envelope (Data.e json))))
    (parseVersion version) = true ->
  let encoded := merge (Data.a json) (Data.p json) in
  let start :=
    ({| timestamp := now; envelope := data_envelope (Data.e json);
        buckets := ∅ |}, reset_layout w) in
  (forall (payload : DecodedPayload Rest) (w0 : World) (entry : Data.Entry),
      ~ handled entry ->
      dispatch input (payload, w0) entry
      = (payload,
         {| console := console w0
              ++ ["No handler for Event: " +:+ JSON_stringify entry];
            layout := layout w0 |}))
  /\ exists (payload : DecodedPayload Rest) (w' : World),
       decode now w input = (Return payload, w')
       /\ payload
          = fst (fold_left (dispatch input) (filter handled encoded) start)
       /\ layout w'
          = layout (snd (fold_left (dispatch input) (filter handled encoded) start))
       /\ console w'
          = console w
            ++ map (fun entry => "No handler for Event: " +:+ JSON_stringify entry)
                 (filter (fun entry => ~ handled entry) encoded).
Proof.
  intros Hparse Hcheck encoded start. split.
  - intros payload w0 entry Hun. rewrite dispatch_eq.
    destruct (switch_case (Data.event entry)) as [label|] eqn:Hsw;
      [| reflexivity].
    exfalso. apply Hun. unfold handled. rewrite Hsw. eauto.
  - unfold decode. rewrite Hparse.
    unfold check_passes in Hcheck. apply negb_true_iff in Hcheck.
    rewrite Hcheck. fold encoded. fold start.
    destruct (fold_left (dispatch input) encoded start) as [payload w'] eqn:Hrun.
    exists payload, w'. split; [reflexivity |].
    destruct (loop_skip input encoded (fst start) (snd start) (snd start) eq_refl)
      as [Hp Hl].
    pose proof (loop_console input encoded (fst start) (snd start)) as Hc.
    simpl in Hp, Hl, Hc. fold start in Hp, Hl, Hc.
    rewrite Hrun in Hp, Hl, Hc. simpl in Hp, Hl, Hc.
    repeat split; assumption.
Qed.

(** C6.  Every event of the [metric] field of a returned payload has
    its [TotalBytes] entry equal to the length of the input string,
    whatever the producer sent; in particular all of them agree. *)
Theorem metric_total_bytes (now : Z) (w : World) (input : string)
    (payload : DecodedPayload Rest) (w' : World)
    (metrics : list (DecodedEvent Rest)) :
  decode now w input = (Return payload, w') ->
  buckets payload !! "metric" = Some metrics ->
  Forall (fun ev => data ev !! Data.Metric.TotalBytes
                    = Some (Z.of_nat (String.length input))) metrics
  /\ forall ev ev' : DecodedEvent Rest,
       ev ∈ metrics -> ev' ∈ metrics ->
       data ev !! Data.Metric.TotalBytes = data ev' !! Data.Metric.TotalBytes.
Proof.
  intros Hdec Hm.
  assert (Hall : Forall (fun ev => data ev !! Data.Metric.TotalBytes
                    = Some (Z.of_nat (String.length input))) metrics).
  { destruct (decode_return _ _ _ _ _ Hdec) as (json & _ & _ & Hrun).
    match type of Hrun with
    | fold_left _ ?l (?p0, ?w0) = _ =>
        destruct (loop_buckets input l p0 w0) as (_ & _ & Hb)
    end.
    destruct (Hb "metric") as (evs & Hall & Hlook).
    rewrite Hrun in Hlook. simpl in Hlook. rewrite Hm, lookup_empty in Hlook.
    destruct evs as [|ev evs]; [discriminate Hlook |].
    injection Hlook as ->. simpl.
    eapply Forall2_Forall_r; [exact Hall |].
    apply Forall_forall. intros entry _ d Hd. eapply built_metric, Hd. }
  split; [exact Hall |].
  intros ev ev' Hev Hev'. rewrite Forall_forall in Hall.
  rewrite (Hall ev Hev), (Hall ev' Hev'). reflexivity.
Qed.

(** C8.  In a returned payload a field is present exactly when the
    merged sequence holds a token routed to it and it is never the
    empty array; its events correspond one to one, in order, to those
    tokens as they follow each other in the merged, time-ordered
    sequence. *)
Theorem buckets_sparse_in_order (now : Z) (w : World) (input : string)
    (json : Data.Payload) (payload : DecodedPayload Rest) (w' : World)
    (bucket : string) :
  JSON_parse input = Some json ->
  decode now w input = (Return payload, w') ->
  let encoded := merge (Data.a json) (Data.p json) in
  let tokens :=
    filter (fun entry => bucket_of (Data.event entry) = Some bucket) encoded in
  (is_Some (buckets payload !! bucket) <-> tokens <> [])
  /\ buckets payload !! bucket <> Some []
  /\ (forall evs : list (DecodedEvent Rest),
        buckets payload !! bucket = Some evs ->
        Forall2 (pushes input bucket) tokens evs)
  /\ StronglySorted (fun x y => Data.time x <= Data.time y) tokens.
Proof.
  intros Hparse Hdec encoded tokens.
  destruct (decode_return _ _ _ _ _ Hdec) as (json' & Hparse' & _ & Hrun).
  rewrite Hparse in Hparse'. injection Hparse' as <-.
  fold encoded in Hrun.
  match type of Hrun with
  | fold_left _ _ (?p0, ?w0) = _ =>
      destruct (loop_buckets input encoded p0 w0) as (_ & _ & Hb)
  end.
  destruct (Hb bucket) as (evs & Hall & Hlook). fold tokens in Hall.
  rewrite Hrun in Hlook. simpl in Hlook. rewrite lookup_empty in Hlook.
  repeat split.
  - intros [l Hl] Hnil. rewrite Hnil in Hall. inversion Hall; subst.
    rewrite Hl in Hlook. discriminate Hlook.
  - intros Hne. destruct evs as [|ev evs]; [| rewrite Hlook; eauto].
    inversion Hall as [Hnil |]. congruence.
  - rewrite Hlook. destruct evs; [discriminate | simpl; congruence].
  - intros evs' Hevs'. rewrite Hevs' in Hlook.
    destruct evs as [|ev evs]; [discriminate Hlook |].
    injection Hlook as ->. simpl.
    eapply Forall2_impl; [exact Hall |].
    intros entry d Hd. now apply built_pushes.
  - apply filter_sorted, (sort_sorted Data.time).
Qed.

(** C9, as the code has it.  The outcome of [decode] is fixed by the
    input, the imports, the clock reading and the state in which
    [layout.reset()] leaves the layout module: two runs agree up to the
    timestamp of the payload, which is the clock reading of the run,
    and two runs at one clock reading have equal outcomes. *)
Theorem decode_outcome_up_to_clock (now1 now2 : Z) (w1 w2 : World)
    (input : string) :
  layout_reset (layout w1) = layout_reset (layout w2) ->
  fst (decode now2 w2 input)
  = outcome_with_timestamp now2 (fst (decode now1 w1 input))
  /\ fst (decode now1 w2 input) = fst (decode now1 w1 input)
  /\ (forall (payload : DecodedPayload Rest) (w' : World),
        decode now1 w1 input = (Return payload, w') -> timestamp payload = now1).
Proof.
  intros Hl.
  assert (Hgen : forall t : Z,
             fst (decode t w2 input)
             = outcome_with_timestamp t (fst (decode now1 w1 input))).
  { intros t. unfold decode.
    destruct (JSON_parse input) as [json|]; [| reflexivity].
    destruct (version_mismatch _ _); [reflexivity |].
    match goal with
    | |- context [fold_left _ ?l (?p0, reset_layout w1)] =>
        destruct (loop_timestamp input l t p0 (reset_layout w1) (reset_layout w2))
          as [Hp _]; [simpl; congruence |]
    end.
    unfold with_timestamp at 1 in Hp. simpl in Hp.
    destruct (fold_left _ _ (_, reset_layout w2)) as [p2 w2'].
    destruct (fold_left _ _ (_, reset_layout w1)) as [p1 w1'].
    simpl in *. now rewrite Hp. }
  assert (Hts : forall (payload : DecodedPayload Rest) (w' : World),
             decode now1 w1 input = (Return payload, w') ->
             timestamp payload = now1).
  { intros payload w' Hdec.
    destruct (decode_return _ _ _ _ _ Hdec) as (json & _ & _ & Hrun).
    match type of Hrun with
    | fold_left _ ?l (?p0, ?w0) = _ =>
        destruct (loop_buckets input l p0 w0) as (Ht & _ & _)
    end.
    rewrite Hrun in Ht. exact Ht. }
  split; [apply Hgen | split; [| exact Hts]].
  rewrite Hgen.
  destruct (decode now1 w1 input) as [[ex | payload] w'] eqn:Hdec;
    [reflexivity |].
  simpl. specialize (Hts payload w' eq_refl).
  destruct payload as [t env b]. simpl in *. subst t. reflexivity.
Qed.
End DecodeFacts.

(** ** The routing table *)

Section RoutingFacts.
Context `{I : Imports}.

#[local] Arguments dispatch : simpl never.

Lemma all_cases (label : Data.Event.t) : label ∈ Data.Event.cases.
Proof. destruct label; unfold Data.Event.cases; repeat constructor. Qed.

Lemma find_value (l : list Data.Event.t) (label : Data.Event.t) :
  NoDup (Event_value <$> l) -> label ∈ l ->
  List.find (fun ev => Event_value label =? Event_value ev) l = Some label.
Proof.
  induction l as [|ev l IH]; intros Hnd Hin; [inversion Hin |].
  rewrite fmap_cons in Hnd. apply NoDup_cons in Hnd as [Hfresh Hnd]. simpl.
  apply elem_of_cons in Hin.
  destruct (Z.eqb_spec (Event_value label) (Event_value ev)) as [Heq | Hne].
  - destruct Hin as [-> | Hin]; [reflexivity |].
    exfalso. apply Hfresh. rewrite <- Heq. apply list_elem_of_fmap. eauto.
  - destruct Hin as [-> | Hin]; [congruence | now apply IH].
Qed.

Lemma bucket_of_value (label : Data.Event.t) :
  NoDup (Event_value <$> Data.Event.cases) ->
  bucket_of (Event_value label) = Some (snd (handler label)).
Proof.
  intros Hnd. unfold bucket_of, switch_case.
  rewrite find_value; [reflexivity | exact Hnd | apply all_cases].
Qed.

Lemma codes_of_labels (bucket : string) :
  NoDup (Event_value <$> Data.Event.cases) ->
  codes_of bucket
  = list_to_set
      (Event_value <$> filter (fun label => snd (handler label) = bucket)
                         Data.Event.cases).
Proof.
  intros Hnd. unfold codes_of. f_equal.
  pose proof (fun label => bucket_of_value label Hnd) as Hvalue. clear Hnd.
  induction Data.Event.cases as [|label l IH]; [reflexivity |].
  rewrite fmap_cons, !filter_cons, IH, Hvalue.
  destruct (decide (Some (snd (handler label)) = Some bucket)) as [Heq | Hne].
  - injection Heq as Heq. rewrite decide_True by exact Heq. reflexivity.
  - rewrite decide_False by congruence. reflexivity.
Qed.

Lemma elem_of_codes_of (bucket : string) (code : Z) :
  code ∈ codes_of bucket ->
  exists label : Data.Event.t,
    switch_case code = Some label /\ snd (handler label) = bucket.
Proof.
  unfold codes_of. rewrite elem_of_list_to_set, list_elem_of_filter.
  intros [Hb _]. unfold bucket_of in Hb.
  destruct (switch_case code) as [label|]; [| discriminate Hb].
  exists label. split; [reflexivity | congruence].
Qed.

Lemma sublist_values_NoDup (P : Data.Event.t -> Prop)
    `{!forall label, Decision (P label)} :
  NoDup (Event_value <$> Data.Event.cases) ->
  NoDup (Event_value <$> filter P Data.Event.cases).
Proof.
  intros Hnd. eapply sublist_NoDup; [exact Hnd |].
  apply fmap_sublist, sublist_filter.
Qed.

(** C7, as the code has it.  Nine codes, not eight, reach the
    [pointer] field: those of [MouseDown], [MouseUp], [MouseMove],
    [MouseWheel], [DoubleClick], [TouchStart], [TouchCancel],
    [TouchEnd] and [TouchMove].  A token with one of them is decoded by
    the interaction decoder and pushed to [pointer].  The codes of
    [Discover] and [Mutation], and no other, reach the one field [dom]
    through the layout decoder. *)
Theorem pointer_and_dom_routing :
  NoDup (Event_value <$> Data.Event.cases) ->
  codes_of "pointer"
  = list_to_set
      (Event_value <$>
         [ Data.Event.MouseDown; Data.Event.MouseUp; Data.Event.MouseMove;
           Data.Event.MouseWheel; Data.Event.DoubleClick;
           Data.Event.TouchStart; Data.Event.TouchCancel;
           Data.Event.TouchEnd; Data.Event.TouchMove ])
  /\ size (codes_of "pointer") = 9%nat
  /\ (forall (input : string) (payload : DecodedPayload Rest) (w : World)
             (entry : Data.Entry),
        Data.event entry ∈ codes_of "pointer" ->
        dispatch input (payload, w) entry
        = (push "pointer" (interaction_decode entry) payload, w))
  /\ codes_of "dom"
     = {[ Event_value Data.Event.Discover; Event_value Data.Event.Mutation ]}
  /\ size (codes_of "dom") = 2%nat
  /\ (forall (input : string) (payload : DecodedPayload Rest) (w : World)
             (entry : Data.Entry),
        Data.event entry ∈ codes_of "dom" ->
        dispatch input (payload, w) entry
        = (push "dom" (fst (layout_decode (layout w) entry)) payload,
           {| console := console w;
              layout := snd (layout_decode (layout w) entry) |})).
Proof.
  intros Hnd.
  pose proof (sublist_values_NoDup
                (fun label => snd (handler label) = "pointer") Hnd) as Hp.
  pose proof (sublist_values_NoDup
                (fun label => snd (handler label) = "dom") Hnd) as Hd.
  repeat split.
  - now rewrite codes_of_labels.
  - rewrite codes_of_labels by exact Hnd.
    rewrite size_list_to_set by exact Hp. reflexivity.
  - intros input payload w entry Hin.
    apply elem_of_codes_of in Hin as (label & Hsw & Hb).
    rewrite dispatch_eq, Hsw. destruct w as [c st].
    destruct label; simpl in Hb; try discriminate Hb; reflexivity.
  - rewrite codes_of_labels by exact Hnd.
    change (filter _ Data.Event.cases)
      with [Data.Event.Discover; Data.Event.Mutation].
    simpl. now rewrite (right_id_L ∅ (∪)).
  - rewrite codes_of_labels by exact Hnd.
    rewrite size_list_to_set by exact Hd. reflexivity.
  - intros input payload w entry Hin.
    apply elem_of_codes_of in Hin as (label & Hsw & Hb).
    rewrite dispatch_eq, Hsw.
    destruct label; simpl in Hb; try discriminate Hb; reflexivity.
Qed.
End RoutingFacts.

(** C7, as stated, fails: with the sample numbering the codes that reach
    [pointer] are nine. *)
Lemma pointer_codes_not_eight :
  size (codes_of (I := Sample.imports) "pointer") <> 8%nat.
Proof. vm_compute. discriminate. Qed.

(** ** Version strings with a part that is not a number *)

Lemma append_cons (c : ascii) (s t : string) :
  String c s +:+ t = String c (s +:+ t).
Proof. reflexivity. Qed.

Lemma append_assoc (s t u : string) : (s +:+ t) +:+ u = s +:+ (t +:+ u).
Proof.
  induction s as [|c s IH]; [reflexivity |].
  now rewrite !append_cons, IH.
Qed.

Lemma rev_string_acc (acc s : string) :
  Js.rev_string acc s = Js.rev_string EmptyString s +:+ acc.
Proof.
  revert acc. induction s as [|c s IH]; intros acc; simpl; [reflexivity |].
  rewrite IH, (IH (String c EmptyString)), append_assoc. reflexivity.
Qed.

(** The first of several pieces of a split is a prefix of the string. *)
Lemma split_first_prefix (sep s cur x y : string) (pieces : list string) :
  Js.split_from sep 0 cur s = x :: y :: pieces ->
  exists t : string, Js.rev_string EmptyString cur +:+ s = x +:+ t.
Proof.
  revert cur. induction s as [|c s IH]; intros cur; cbn [Js.split_from].
  - discriminate.
  - destruct (String.prefix sep (String c s)).
    + intros Heq. injection Heq as <- _. eauto.
    + intros Heq. apply IH in Heq as [t Ht]. exists t. rewrite <- Ht.
      cbn [Js.rev_string].
      rewrite (rev_string_acc (String c EmptyString)), append_assoc.
      reflexivity.
Qed.

Lemma read_digits_seen (s : string) (acc : Z) :
  Js.read_digits true acc s <> None.
Proof.
  revert acc. induction s as [|c s IH]; intros acc; simpl; [discriminate |].
  destruct (Js.digit_value c); [apply IH | discriminate].
Qed.

Lemma read_digits_app (s t : string) (seen : bool) (acc : Z) :
  Js.read_digits seen acc s <> None -> Js.read_digits seen acc (s +:+ t) <> None.
Proof.
  revert seen acc. induction s as [|c s IH]; intros seen acc; simpl.
  - destruct seen; [intros _; apply read_digits_seen | congruence].
  - destruct (Js.digit_value c); [apply IH | exact id].
Qed.

Lemma trim_start_app (s t : string) :
  Js.trim_start s <> EmptyString ->
  Js.trim_start (s +:+ t) = Js.trim_start s +:+ t.
Proof.
  induction s as [|c s IH]; simpl; [congruence |].
  destruct (Js.is_white_space c); [exact IH | reflexivity].
Qed.

(** What [parseInt] cannot read it cannot read from a prefix either. *)
Lemma parseInt_prefix_nan (s t : string) :
  Js.parseInt (s +:+ t) = Js.NaN -> Js.parseInt s = Js.NaN.
Proof.
  unfold Js.parseInt.
  destruct (Js.trim_start s) as [|c r] eqn:Htrim; [reflexivity |].
  rewrite trim_start_app, Htrim by (rewrite Htrim; discriminate). simpl.
  destruct (Ascii.eqb c "-"); [| destruct (Ascii.eqb c "+")].
  - destruct (Js.read_digits false 0 r) eqn:Hr; [| reflexivity].
    destruct (Js.read_digits false 0 (r +:+ t)) eqn:Hrt; [discriminate |].
    exfalso. apply (read_digits_app r t false 0); congruence.
  - destruct (Js.read_digits false 0 r) eqn:Hr; [| reflexivity].
    destruct (Js.read_digits false 0 (r +:+ t)) eqn:Hrt; [discriminate |].
    exfalso. apply (read_digits_app r t false 0); congruence.
  - destruct (Js.read_digits false 0 (String c r)) eqn:Hr; [| reflexivity].
    change (String c (r +:+ t)) with (String c r +:+ t).
    destruct (Js.read_digits false 0 (String c r +:+ t)) eqn:Hrt; [discriminate |].
    exfalso. apply (read_digits_app (String c r) t false 0); congruence.
Qed.

Lemma patch_nan (s p0 p1 p2 : string) :
  Js.split "." s = [p0; p1; p2] ->
  Js.parseInt p2 = Js.NaN -> patch (parseVersion s) = Js.NaN.
Proof.
  intros Hs Hnan. unfold parseVersion. rewrite Hs. unfold item; simpl.
  destruct (Js.split "-b" p2) as [|s0 [|s1 [|s2 subparts]]] eqn:Hsub;
    simpl; try exact Hnan.
  apply split_first_prefix in Hsub as [t Ht]. change (p2 = s0 +:+ t) in Ht.
  rewrite Ht in Hnan. now apply parseInt_prefix_nan in Hnan.
Qed.

Lemma nan_check_fails (incoming running : DecodedVersion) :
  major incoming = Js.NaN \/ minor incoming = Js.NaN ->
  check_passes incoming running = false.
Proof.
  unfold check_passes, version_mismatch.
  intros [-> | ->]; simpl; [reflexivity |].
  now rewrite orb_true_r.
Qed.

(** C10, as the code has it.  In a version string of three parts a
    part that [parseInt] cannot read gives [NaN] in its component, not
    the zero version.  A [NaN] major or minor fails the check against
    every running version, and [decode] throws.  A [NaN] patch does not:
    the patch comparison is then false, the check passes exactly when
    major and minor equal the running ones, and [decode] returns. *)
Theorem unreadable_part (s p0 p1 p2 : string) :
  Js.split "." s = [p0; p1; p2] ->
  major (parseVersion s) = Js.parseInt p0
  /\ minor (parseVersion s) = Js.parseInt p1
  /\ (Js.parseInt p2 = Js.NaN -> patch (parseVersion s) = Js.NaN)
  /\ (Js.parseInt p0 = Js.NaN \/ Js.parseInt p1 = Js.NaN \/ Js.parseInt p2 = Js.NaN ->
      parseVersion s <> zero_version)
  /\ (forall running : DecodedVersion,
        (Js.parseInt p0 = Js.NaN \/ Js.parseInt p1 = Js.NaN ->
         check_passes (parseVersion s) running = false)
        /\ (Js.parseInt p2 = Js.NaN ->
            check_passes (parseVersion s) running
            = Js.strict_eq (Js.parseInt p0) (major running)
              && Js.strict_eq (Js.parseInt p1) (minor running)))
  /\ (forall (I : Imports) (now : Z) (w : World) (input : string)
             (json : Data.Payload),
        JSON_parse input = Some json ->
        Data.version (data_envelope (Data.e json)) = s ->
        (Js.parseInt p0 = Js.NaN \/ Js.parseInt p1 = Js.NaN ->
         decode now w input = (Throw (Error (invalid_version s input)), w))
        /\ (Js.parseInt p2 = Js.NaN ->
            Js.strict_eq (Js.parseInt p0) (major (parseVersion version))
            && Js.strict_eq (Js.parseInt p1) (minor (parseVersion version)) = true ->
            exists (payload : DecodedPayload Rest) (w' : World),
              decode now w input = (Return payload, w'))).
Proof.
  intros Hs.
  assert (Hma : major (parseVersion s) = Js.parseInt p0).
  { unfold parseVersion. rewrite Hs. unfold item; simpl.
    destruct (length (Js.split "-b" p2) =? 2)%nat; reflexivity. }
  assert (Hmi : minor (parseVersion s) = Js.parseInt p1).
  { unfold parseVersion. rewrite Hs. unfold item; simpl.
    destruct (length (Js.split "-b" p2) =? 2)%nat; reflexivity. }
  pose proof (patch_nan s p0 p1 p2 Hs) as Hpa.
  assert (Hfail : forall running, Js.parseInt p0 = Js.NaN \/ Js.parseInt p1 = Js.NaN ->
                    check_passes (parseVersion s) running = false).
  { intros running Hnan. apply nan_check_fails. rewrite Hma, Hmi. exact Hnan. }
  assert (Hpass : forall running, Js.parseInt p2 = Js.NaN ->
            check_passes (parseVersion s) running
            = Js.strict_eq (Js.parseInt p0) (major running)
              && Js.strict_eq (Js.parseInt p1) (minor running)).
  { intros running Hnan. rewrite check_passes_unfold, Hma, Hmi, (Hpa Hnan).
    simpl. now rewrite andb_true_r. }
  split; [exact Hma | split; [exact Hmi | split; [exact Hpa |]]].
  split; [| split].
  - intros Hnan Hzero.
    rewrite Hzero in Hma, Hmi, Hpa. simpl in Hma, Hmi, Hpa.
    destruct Hnan as [Hn | [Hn | Hn]]; try congruence.
    specialize (Hpa Hn). discriminate Hpa.
  - intros running. split; [apply Hfail | apply Hpass].
  - intros I now w input json Hparse Hver. split.
    + intros Hnan. unfold decode. rewrite Hparse, Hver.
      specialize (Hfail (parseVersion version) Hnan).
      unfold check_passes in Hfail. apply negb_false_iff in Hfail.
      rewrite Hfail. reflexivity.
    + intros Hnan Heq. unfold decode. rewrite Hparse, Hver.
      specialize (Hpass (parseVersion version) Hnan). rewrite Heq in Hpass.
      unfold check_passes in Hpass. apply negb_true_iff in Hpass.
      rewrite Hpass. destruct (fold_left _ _ _) as [payload w']. eauto.
Qed.

(** C10, as stated, fails for the patch part: [1.2.x] has a patch that
    is not a number and passes the check against the running [1.2.0];
    [decode] returns a payload for the sample document declaring it. *)
Lemma nan_patch_passes :
  patch (parseVersion "1.2.x") = Js.NaN
  /\ check_passes (parseVersion "1.2.x") (parseVersion "1.2.0") = true
  /\ exists payload : DecodedPayload Data.Entry,
       fst (decode (I := Sample.imports) 1000 Sample.world Sample.input_patch_nan)
       = Return payload.
Proof.
  split; [reflexivity | split; [reflexivity |]].
  eexists. vm_compute. reflexivity.
Qed.

(** ** The properties at work on the sample documents *)

Lemma mismatch_throws_first_witness :
  JSON_parse (Imports := Sample.imports) Sample.input_minor
  = Some (Sample.document "1.3.0" (Some Sample.events_p))
  /\ isCompatible_spec (parseVersion "1.3.0") (parseVersion "1.2.0") = false
  /\ decode (I := Sample.imports) 1000 Sample.world Sample.input_minor
     = (Throw (Error ("Invalid version. Actual: 1.3.0 | Expected: 1.2.0 (+/- 1) | "
                        +:+ Sample.input_minor)),
        Sample.world).
Proof.
  split; [vm_compute; reflexivity | split; [vm_compute; reflexivity |]].
  refine (eq_trans
            (proj1 (mismatch_throws_first (I := Sample.imports) 1000 Sample.world
                      Sample.input_minor
                      (Sample.document "1.3.0" (Some Sample.events_p)) _ _ _)) _).
  - vm_compute. reflexivity.
  - vm_compute. reflexivity.
  - vm_compute. discriminate.
  - vm_compute. reflexivity.
Defined.

(** C4, as stated, fails: [1.2.x] is incompatible with the running
    [1.2.0] under the rule, yet [decode] returns a payload for the
    sample document declaring it, with its [metric] field filled. *)
Lemma incompatible_patch_is_decoded :
  isCompatible_spec (parseVersion "1.2.x")
    (parseVersion (version (Imports := Sample.imports))) = false
  /\ exists (payload : DecodedPayload Data.Entry) (w' : World),
       decode (I := Sample.imports) 1000 Sample.world Sample.input_patch_nan
       = (Return payload, w')
       /\ is_Some (buckets payload !! "metric").
Proof.
  split; [reflexivity |].
  eexists _, _. split; [vm_compute; reflexivity |].
  vm_compute. eauto.
Qed.

Lemma unhandled_tokens_skipped_witness :
  check_passes (parseVersion "1.2.1") (parseVersion "1.2.0") = true
  /\ exists (payload : DecodedPayload Data.Entry) (w' : World),
       decode (I := Sample.imports) 1000 Sample.world Sample.input_ok
       = (Return payload, w')
       /\ buckets payload !! "page" = None
       /\ console w' = ["No handler for Event: [30,21]"].
Proof.
  split; [vm_compute; reflexivity |].
  destruct (unhandled_tokens_skipped (I := Sample.imports) 1000 Sample.world
              Sample.input_ok (Sample.document "1.2.1" (Some Sample.events_p)))
    as (_ & payload & w' & Hdec & Hp & _ & Hc);
    [vm_compute; reflexivity | vm_compute; reflexivity |].
  exists payload, w'. split; [exact Hdec | split].
  - rewrite Hp. vm_compute. reflexivity.
  - rewrite Hc. vm_compute. reflexivity.
Defined.

Lemma metric_total_bytes_witness :
  Sample.run_ok = (Return Sample.payload_ok, snd Sample.run_ok)
  /\ buckets Sample.payload_ok !! "metric" = Some Sample.metrics_ok
  /\ String.length Sample.input_ok = 91%nat
  /\ Forall (fun ev => data ev !! Data.Metric.TotalBytes = Some 91) Sample.metrics_ok.
Proof.
  assert (Hrun : Sample.run_ok = (Return Sample.payload_ok, snd Sample.run_ok))
    by (vm_compute; reflexivity).
  assert (Hm : buckets Sample.payload_ok !! "metric" = Some Sample.metrics_ok)
    by (vm_compute; reflexivity).
  split; [exact Hrun | split; [exact Hm | split; [reflexivity |]]].
  exact (proj1 (metric_total_bytes (I := Sample.imports) 1000 Sample.world
                  Sample.input_ok Sample.payload_ok (snd Sample.run_ok)
                  Sample.metrics_ok Hrun Hm)).
Defined.

Lemma pointer_and_dom_routing_witness :
  NoDup (Sample.event_value <$> Data.Event.cases)
  /\ size (codes_of (I := Sample.imports) "pointer") = 9%nat
  /\ size (codes_of (I := Sample.imports) "dom") = 2%nat.
Proof.
  assert (Hnd : NoDup (Sample.event_value <$> Data.Event.cases))
    by (apply (bool_decide_unpack _); vm_compute; exact Logic.I).
  split; [exact Hnd |].
  destruct (pointer_and_dom_routing (I := Sample.imports) Hnd)
    as (_ & Hp & _ & _ & Hd & _).
  split; [exact Hp | exact Hd].
Defined.

Lemma buckets_sparse_in_order_witness :
  Sample.run_ok = (Return Sample.payload_ok, snd Sample.run_ok)
  /\ buckets Sample.payload_ok !! "metric" <> Some []
  /\ Forall2 (pushes (I := Sample.imports) Sample.input_ok "metric")
       [Sample.entry 10 0 [2; 1]; Sample.entry 20 0 [2; 7]] Sample.metrics_ok.
Proof.
  assert (Hrun : Sample.run_ok = (Return Sample.payload_ok, snd Sample.run_ok))
    by (vm_compute; reflexivity).
  split; [exact Hrun |].
  destruct (buckets_sparse_in_order (I := Sample.imports) 1000 Sample.world
              Sample.input_ok (Sample.document "1.2.1" (Some Sample.events_p))
              Sample.payload_ok (snd Sample.run_ok) "metric")
    as (_ & Hne & Hall & _); [vm_compute; reflexivity | exact Hrun |].
  split; [exact Hne |].
  apply (Hall Sample.metrics_ok). vm_compute. reflexivity.
Defined.

Lemma decode_outcome_up_to_clock_witness :
  layout_reset (Imports := Sample.imports) (layout Sample.world)
  = layout_reset (Imports := Sample.imports) (layout Sample.later_world)
  /\ fst (decode (I := Sample.imports) 2000 Sample.later_world Sample.input_ok)
     = outcome_with_timestamp 2000 (fst Sample.run_ok).
Proof.
  split; [reflexivity |].
  apply (decode_outcome_up_to_clock (I := Sample.imports) 1000 2000
           Sample.world Sample.later_world Sample.input_ok).
  reflexivity.
Defined.

(** C9, as stated, fails: the same document decoded when the clock reads
    1000 and when it reads 2000 gives two different payloads. *)
Lemma decode_depends_on_clock :
  fst (decode (I := Sample.imports) 1000 Sample.world Sample.input_ok)
  <> fst (decode (I := Sample.imports) 2000 Sample.world Sample.input_ok).
Proof. vm_compute. intros Heq. discriminate Heq. Qed.

Lemma unreadable_part_witness :
  Js.split "." "x.2.0" = ["x"; "2"; "0"]
  /\ major (parseVersion "x.2.0") = Js.NaN
  /\ check_passes (parseVersion "x.2.0") (parseVersion "0.0.0") = false.
Proof.
  assert (Hs : Js.split "." "x.2.0" = ["x"; "2"; "0"]) by reflexivity.
  split; [exact Hs |].
  destruct (unreadable_part "x.2.0" "x" "2" "0" Hs) as (Hma & _ & _ & _ & Hrun & _).
  split; [exact Hma |].
  destruct (Hrun (parseVersion "0.0.0")) as [Hfail _].
  apply Hfail. left. reflexivity.
Defined.

(** * Further properties of [decode] *)

Section OutcomeFacts.
Context `{I : Imports}.

#[local] Arguments dispatch : simpl never.

(** X1.  For an input that [JSON.parse] turns into a payload of the
    wire shape, [decode] returns exactly when the declared version
    passes the check; the payload then carries the clock reading and the
    envelope decoded from [json.e], which the loop never touches. *)
Theorem decode_returns_iff (now : Z) (w : World) (input : string)
    (json : Data.Payload) :
  JSON_parse input = Some json ->
  ((exists (payload : DecodedPayload Rest) (w' : World),
       decode now w input = (Return payload, w'))
   <-> check_passes (parseVersion (Data.version (data_envelope (Data.e json))))
         (parseVersion version) = true)
  /\ (forall (payload : DecodedPayload Rest) (w' : World),
        decode now w input = (Return payload, w') ->
        envelope payload = data_envelope (Data.e json)
        /\ timestamp payload = now).
Proof.
  intros Hparse. split; [split |].
  - intros (payload & w' & Hdec).
    destruct (decode_return _ _ _ _ _ Hdec) as (json' & Hparse' & Hcheck & _).
    rewrite Hparse in Hparse'. injection Hparse' as <-. exact Hcheck.
  - intros Hcheck. unfold decode. rewrite Hparse.
    unfold check_passes in Hcheck. apply negb_true_iff in Hcheck. rewrite Hcheck.
    destruct (fold_left _ _ _) as [payload w']. eauto.
  - intros payload w' Hdec.
    destruct (decode_return _ _ _ _ _ Hdec) as (json' & Hparse' & _ & Hrun).
    rewrite Hparse in Hparse'. injection Hparse' as <-.
    match type of Hrun with
    | fold_left _ ?l (?p0, ?w0) = _ =>
        destruct (loop_buckets input l p0 w0) as (Ht & He & _)
    end.
    rewrite Hrun in Ht, He. auto.
Qed.

(** X2.  For an input that [JSON.parse] turns into a payload of the
    wire shape, a [decode] that throws has thrown the version error
    before [layout.reset()]: the check failed, and the console and the
    layout module are as before the call. *)
Theorem decode_throw_no_effect (now : Z) (w : World) (input : string)
    (json : Data.Payload) (ex : Exception) (w' : World) :
  JSON_parse input = Some json ->
  decode now w input = (Throw ex, w') ->
  w' = w
  /\ ex = Error (invalid_version (Data.version (data_envelope (Data.e json))) input)
  /\ check_passes (parseVersion (Data.version (data_envelope (Data.e json))))
       (parseVersion version) = false.
Proof.
  intros Hparse. unfold decode, check_passes. rewrite Hparse.
  destruct (version_mismatch _ _) eqn:Hmis.
  - intros Heq. injection Heq as <- <-. auto.
  - destruct (fold_left _ _ _) as [payload w1]. discriminate.
Qed.

(** The layout state after the loop: only the tokens whose [case] calls
    [layout.decode] move it, one after the other. *)
Lemma loop_layout (input : string) (entries : list Data.Entry) :
  forall (payload : DecodedPayload Rest) (w : World),
    layout (snd (fold_left (dispatch input) entries (payload, w)))
    = fold_left (fun st entry => snd (layout_decode st entry))
        (filter (fun entry => layout_token entry = true) entries) (layout w).
Proof.
  induction entries as [|entry rest IH]; intros payload w; simpl; [reflexivity |].
  rewrite dispatch_eq, filter_cons.
  destruct (switch_case (Data.event entry)) as [label|] eqn:Hsw.
  - rewrite IH. simpl.
    destruct (fst (handler label)) eqn:Hcat.
    1,2,4,5:
      (assert (Hl : layout_token entry = false)
         by (unfold layout_token; rewrite Hsw, Hcat; reflexivity);
       rewrite decide_False by congruence;
       destruct label; simpl in Hcat; try discriminate Hcat; reflexivity).
    assert (Hl : layout_token entry = true)
      by (unfold layout_token; rewrite Hsw, Hcat; reflexivity).
    rewrite decide_True by exact Hl.
    destruct label; simpl in Hcat; try discriminate Hcat; reflexivity.
  - assert (Hl : layout_token entry = false)
      by (unfold layout_token; rewrite Hsw; reflexivity).
    rewrite decide_False by congruence. now rewrite IH.
Qed.

(** X3.  After a [decode] that returns, the layout module is in the
    state reached from [layout.reset()] by decoding, in merged order, the
    tokens of the layout cases ([Box], [Region], [Discover], [Mutation],
    [Document]) and no other token: it was reset once and every other
    token left it alone. *)
Theorem layout_reset_then_threaded (now : Z) (w : World) (input : string)
    (json : Data.Payload) (payload : DecodedPayload Rest) (w' : World) :
  JSON_parse input = Some json ->
  decode now w input = (Return payload, w') ->
  layout w'
  = fold_left (fun st entry => snd (layout_decode st entry))
      (filter (fun entry => layout_token entry = true)
         (merge (Data.a json) (Data.p json)))
      (layout_reset (layout w)).
Proof.
  intros Hparse Hdec.
  destruct (decode_return _ _ _ _ _ Hdec) as (json' & Hparse' & _ & Hrun).
  rewrite Hparse in Hparse'. injection Hparse' as <-.
  match type of Hrun with
  | fold_left _ ?l (?p0, ?w0) = _ =>
      pose proof (loop_layout input l p0 w0) as Hl
  end.
  rewrite Hrun in Hl. exact Hl.
Qed.
End OutcomeFacts.

Section BucketFacts.
Context `{I : Imports}.

#[local] Arguments dispatch : simpl never.

(** The labels that share a field share the way their event is built. *)
Lemma same_field_same_event (input : string) (l1 l2 : Data.Event.t)
    (f : Data.Entry -> DecodedEvent Rest) :
  snd (handler l1) = snd (handler l2) ->
  stateless_event input l1 = Some f ->
  forall (st : LayoutState) (entry : Data.Entry),
    fst (decoded input st l2 entry) = f entry.
Proof.
  intros Hb Hf st entry.
  destruct l1; simpl in Hf; try discriminate Hf; injection Hf as <-;
    destruct l2; simpl in Hb; try discriminate Hb; reflexivity.
Qed.

Lemma Forall2_built_fmap (input bucket : string) (label : Data.Event.t)
    (f : Data.Entry -> DecodedEvent Rest) (tokens : list Data.Entry)
    (evs : list (DecodedEvent Rest)) :
  snd (handler label) = bucket ->
  stateless_event input label = Some f ->
  Forall2 (built input bucket) tokens evs -> evs = f <$> tokens.
Proof.
  intros Hb Hf. induction 1 as [|entry ev tokens evs Hbuilt _ IH]; [reflexivity |].
  rewrite fmap_cons, IH. f_equal.
  destruct Hbuilt as (label' & st & _ & Hb' & ->).
  apply (same_field_same_event input label label' f); congruence.
Qed.

(** What a returned payload holds in a field: the events built for the
    tokens routed to it, in merged order, or nothing. *)
Lemma field_events (now : Z) (w : World) (input : string)
    (json : Data.Payload) (payload : DecodedPayload Rest) (w' : World)
    (bucket : string) :
  JSON_parse input = Some json ->
  decode now w input = (Return payload, w') ->
  exists evs : list (DecodedEvent Rest),
    Forall2 (built input bucket)
      (filter (fun entry => bucket_of (Data.event entry) = Some bucket)
         (merge (Data.a json) (Data.p json)))
      evs
    /\ buckets payload !! bucket = match evs with [] => None | _ => Some evs end.
Proof.
  intros Hparse Hdec.
  destruct (decode_return _ _ _ _ _ Hdec) as (json' & Hparse' & _ & Hrun).
  rewrite Hparse in Hparse'. injection Hparse' as <-.
  match type of Hrun with
  | fold_left _ ?l (?p0, ?w0) = _ =>
      destruct (loop_buckets input l p0 w0) as (_ & _ & Hb)
  end.
  destruct (Hb bucket) as (evs & Hall & Hlook).
  rewrite Hrun in Hlook. simpl in Hlook. rewrite lookup_empty in Hlook.
  exists evs. split; [exact Hall |]. rewrite Hlook. now destruct evs.
Qed.

(** X4.  The fields fed by the data, interaction, diagnostic and
    performance decoders hold exactly the decoder applied to each token
    routed to them, in merged order (for [metric], with [TotalBytes]
    set); the field is absent when there is no such token. *)
Theorem stateless_field_exact (now : Z) (w : World) (input : string)
    (json : Data.Payload) (payload : DecodedPayload Rest) (w' : World)
    (label : Data.Event.t) (f : Data.Entry -> DecodedEvent Rest) :
  JSON_parse input = Some json ->
  decode now w input = (Return payload, w') ->
  stateless_event input label = Some f ->
  buckets payload !! snd (handler label)
  = match filter (fun entry => bucket_of (Data.event entry)
                               = Some (snd (handler label)))
            (merge (Data.a json) (Data.p json)) with
    | [] => None
    | tokens => Some (f <$> tokens)
    end.
Proof.
  intros Hparse Hdec Hf.
  destruct (field_events now w input json payload w' (snd (handler label))
              Hparse Hdec) as (evs & Hall & Hlook).
  rewrite Hlook.
  rewrite (Forall2_built_fmap input _ label f _ _ eq_refl Hf Hall).
  destruct (filter _ _); reflexivity.
Qed.

(** X5.  The dispatcher changes nothing else in a metric event: its
    other entries and the rest of the event are as [data.decode] built
    them from the token at the same position. *)
Theorem metric_only_total_bytes (now : Z) (w : World) (input : string)
    (json : Data.Payload) (payload : DecodedPayload Rest) (w' : World)
    (metrics : list (DecodedEvent Rest)) :
  JSON_parse input = Some json ->
  decode now w input = (Return payload, w') ->
  buckets payload !! "metric" = Some metrics ->
  Forall2 (fun entry ev =>
             rest ev = rest (data_decode entry)
             /\ forall key : Z, key <> Data.Metric.TotalBytes ->
                  data ev !! key = data (data_decode entry) !! key)
    (filter (fun entry => bucket_of (Data.event entry) = Some "metric")
       (merge (Data.a json) (Data.p json)))
    metrics.
Proof.
  intros Hparse Hdec Hm.
  destruct (field_events now w input json payload w' "metric" Hparse Hdec)
    as (evs & Hall & Hlook).
  rewrite Hm in Hlook.
  destruct evs as [|ev evs]; [discriminate Hlook |]. injection Hlook as ->.
  eapply Forall2_impl; [exact Hall |].
  intros entry ev' (label & st & _ & Hb & ->).
  apply handler_metric in Hb. subst label. split; [reflexivity |].
  intros key Hkey. simpl. now rewrite lookup_insert_ne by congruence.
Qed.

(** X6.  [decode] creates no field outside its table: every field
    present in a returned payload is one of the 28 names of the
    [switch]. *)
Theorem only_known_fields (now : Z) (w : World) (input : string)
    (payload : DecodedPayload Rest) (w' : World) (bucket : string) :
  decode now w input = (Return payload, w') ->
  is_Some (buckets payload !! bucket) ->
  bucket ∈ field_names.
Proof.
  intros Hdec [l Hl].
  destruct (decode_return _ _ _ _ _ Hdec) as (json & _ & _ & Hrun).
  match type of Hrun with
  | fold_left _ ?l (?p0, ?w0) = _ =>
      destruct (loop_buckets input l p0 w0) as (_ & _ & Hb)
  end.
  destruct (Hb bucket) as (evs & Hall & Hlook).
  rewrite Hrun in Hlook. simpl in Hlook. rewrite lookup_empty, Hl in Hlook.
  destruct evs as [|ev evs]; [discriminate Hlook |].
  inversion Hall as [| entry ev' tokens evs' Hbuilt _ Htok Hevs]; subst.
  destruct Hbuilt as (label & _ & _ & <- & _).
  destruct label; unfold field_names; simpl; repeat constructor.
Qed.
End BucketFacts.

Section CountFacts.
Context `{I : Imports}.

#[local] Arguments dispatch : simpl never.

Lemma total_events_insert (m : gmap string (list (DecodedEvent Rest)))
    (b : string) (l : list (DecodedEvent Rest)) :
  m !! b = None ->
  total_events (<[b := l]> m) = (length l + total_events m)%nat.
Proof.
  intros Hnone. unfold total_events.
  rewrite map_fold_insert_L; [reflexivity | | exact Hnone].
  intros. lia.
Qed.

Lemma total_events_push (b : string) (ev : DecodedEvent Rest)
    (payload : DecodedPayload Rest) :
  total_events (buckets (push b ev payload)) = S (total_events (buckets payload)).
Proof.
  set (m := buckets payload).
  assert (Hm : buckets (push b ev payload)
               = <[b := default [] (m !! b) ++ [ev]]> (delete b m)).
  { apply map_eq. intros b'. rewrite push_lookup. fold m.
    destruct (decide (b = b')) as [<- | Hne].
    - now rewrite lookup_insert_eq.
    - now rewrite lookup_insert_ne, lookup_delete_ne. }
  rewrite Hm, total_events_insert by apply lookup_delete_eq.
  rewrite length_app. simpl.
  destruct (m !! b) as [l|] eqn:Hb; simpl.
  - rewrite <- (insert_delete_id m b l Hb) at 2.
    rewrite total_events_insert by apply lookup_delete_eq. lia.
  - rewrite delete_id by exact Hb. reflexivity.
Qed.

Lemma loop_total (input : string) (entries : list Data.Entry) :
  forall (payload : DecodedPayload Rest) (w : World),
    total_events (buckets (fst (fold_left (dispatch input) entries (payload, w))))
    = (total_events (buckets payload) + length (filter handled entries))%nat.
Proof.
  induction entries as [|entry rest IH]; intros payload w; simpl; [lia |].
  rewrite dispatch_eq, filter_cons.
  destruct (decide (handled entry)) as [Hh | Hh]; unfold handled in Hh.
  - destruct Hh as [label Hsw]. rewrite Hsw, IH, total_events_push. simpl. lia.
  - destruct (switch_case (Data.event entry)) as [label|] eqn:Hsw;
      [exfalso; apply Hh; eauto |].
    now rewrite IH.
Qed.

(** X7.  No event is lost and none is added: a returned payload holds,
    all fields together, as many events as the input has handled
    tokens on its two channels. *)
Theorem events_conserved (now : Z) (w : World) (input : string)
    (json : Data.Payload) (payload : DecodedPayload Rest) (w' : World) :
  JSON_parse input = Some json ->
  decode now w input = (Return payload, w') ->
  total_events (buckets payload)
  = length (filter handled (Data.a json ++ default [] (Data.p json))).
Proof.
  intros Hparse Hdec.
  destruct (decode_return _ _ _ _ _ Hdec) as (json' & Hparse' & _ & Hrun).
  rewrite Hparse in Hparse'. injection Hparse' as <-.
  match type of Hrun with
  | fold_left _ ?l (?p0, ?w0) = _ =>
      pose proof (loop_total input l p0 w0) as Ht
  end.
  rewrite Hrun in Ht. simpl in Ht. rewrite Ht.
  unfold total_events at 1. rewrite map_fold_empty. simpl.
  apply Permutation_length. apply filter_Permutation.
  unfold merge. rewrite (sort_perm Data.time).
  destruct (Data.p json); simpl; [reflexivity | now rewrite app_nil_r].
Qed.
End CountFacts.

(** * Further properties of the temporal merge *)

Section MergeFacts.
Context {A : Type} (key : A -> Z).

(** Two key-ordered lists that hold, for every key, the same elements
    in the same order are one list. *)
Lemma sorted_filters_unique (l1 l2 : list A) :
  StronglySorted (fun x y => key x <= key y) l1 ->
  StronglySorted (fun x y => key x <= key y) l2 ->
  (forall t : Z, filter (fun x => key x = t) l1 = filter (fun x => key x = t) l2) ->
  l1 = l2.
Proof.
  intros Hs1. revert l2.
  induction Hs1 as [|x l1 Hs1 IH Hx]; intros l2 Hs2 Hf.
  - destruct l2 as [|y l2]; [reflexivity |].
    specialize (Hf (key y)). rewrite filter_nil, filter_cons_True in Hf by reflexivity.
    discriminate Hf.
  - destruct Hs2 as [|y l2 Hs2 Hy].
    { specialize (Hf (key x)).
      rewrite filter_nil, filter_cons_True in Hf by reflexivity. discriminate Hf. }
    rewrite Forall_forall in Hx, Hy.
    assert (Hxy : key x = key y).
    { assert (Hin1 : x ∈ y :: l2).
      { assert (Hin : x ∈ filter (fun z => key z = key x) (y :: l2)).
        { rewrite <- Hf, filter_cons_True by reflexivity. left. }
        apply list_elem_of_filter in Hin as [_ Hin]. exact Hin. }
      assert (Hin2 : y ∈ x :: l1).
      { assert (Hin : y ∈ filter (fun z => key z = key y) (x :: l1)).
        { rewrite Hf, filter_cons_True by reflexivity. left. }
        apply list_elem_of_filter in Hin as [_ Hin]. exact Hin. }
      apply elem_of_cons in Hin1 as [-> | Hin1]; [reflexivity |].
      apply elem_of_cons in Hin2 as [-> | Hin2]; [reflexivity |].
      specialize (Hx y Hin2). specialize (Hy x Hin1). lia. }
    pose proof (Hf (key x)) as Hhead.
    rewrite !filter_cons_True in Hhead by congruence.
    injection Hhead as <- Htail.
    f_equal. apply IH; [exact Hs2 |].
    intros t. destruct (decide (key x = t)) as [<- | Hne]; [exact Htail |].
    specialize (Hf t). now rewrite !filter_cons_False in Hf by exact Hne.
Qed.

Lemma distinct_keys_filter (t : Z) (l : list A) :
  NoDup (key <$> l) -> (length (filter (fun x => key x = t) l) <= 1)%nat.
Proof.
  induction l as [|x l IH]; intros Hnd; [simpl; lia |].
  rewrite fmap_cons in Hnd. apply NoDup_cons in Hnd as [Hfresh Hnd].
  rewrite filter_cons. destruct (decide (key x = t)) as [Heq | Hne];
    [| now apply IH].
  assert (Hnil : filter (fun z => key z = t) l = []).
  { destruct (filter (fun z => key z = t) l) as [|z zs] eqn:Hfz; [reflexivity |].
    exfalso. apply Hfresh.
    assert (Hz : z ∈ filter (fun z => key z = t) l) by (rewrite Hfz; left).
    apply list_elem_of_filter in Hz as [Hkz Hz].
    apply list_elem_of_fmap. exists z. split; [congruence | exact Hz]. }
  rewrite Hnil. simpl. lia.
Qed.

Lemma distinct_keys_sort (l l' : list A) :
  NoDup (key <$> l) -> Permutation l l' ->
  Js.sort (fun x y => key x - key y) l = Js.sort (fun x y => key x - key y) l'.
Proof.
  intros Hnd Hperm.
  apply sorted_filters_unique; try apply (sort_sorted key).
  intros t. rewrite !(sort_filter key).
  pose proof (distinct_keys_filter t l Hnd) as Hlen.
  assert (Hp : Permutation (filter (fun x => key x = t) l)
                 (filter (fun x => key x = t) l'))
    by now apply filter_Permutation.
  destruct (filter (fun x => key x = t) l) as [|x [|x' xs]]; simpl in Hlen; [| | lia].
  - apply Permutation_nil in Hp. now rewrite Hp.
  - destruct (filter (fun x => key x = t) l') as [|y [|y' ys]].
    + apply Permutation_length in Hp. discriminate Hp.
    + apply Permutation_length_1 in Hp. now subst.
    + apply Permutation_length in Hp. discriminate Hp.
Qed.
End MergeFacts.

(** X8.  The merge is pinned down by its three properties: any
    sequence that is a stable ascending sort by timestamp of the
    concatenated channels is the sequence [decode] walks. *)
Theorem merge_unique (a : list Data.Entry) (p : option (list Data.Entry))
    (sorted : list Data.Entry) :
  stable_sort_of Data.time sorted (a ++ default [] p) ->
  sorted = merge a p.
Proof.
  intros (_ & Hs & Hf).
  apply (sorted_filters_unique Data.time); [exact Hs | apply (sort_sorted Data.time) |].
  intros t. rewrite Hf. unfold merge. rewrite (sort_filter Data.time).
  destruct p; simpl; [reflexivity | now rewrite app_nil_r].
Qed.

(** X9.  Tokens that already arrive in time order are walked as they
    arrive, the primary channel first; merging is idempotent. *)
Theorem merge_ordered_unchanged (a : list Data.Entry) (p : option (list Data.Entry)) :
  (StronglySorted (fun x y => Data.time x <= Data.time y) (a ++ default [] p) ->
   merge a p = a ++ default [] p)
  /\ merge (merge a p) None = merge a p
  /\ length (merge a p) = length (a ++ default [] p).
Proof.
  assert (Hfix : forall l : list Data.Entry,
             StronglySorted (fun x y => Data.time x <= Data.time y) l ->
             Js.sort (fun x y => Data.time x - Data.time y) l = l).
  { intros l Hl.
    apply (sorted_filters_unique Data.time); [apply (sort_sorted Data.time) | exact Hl |].
    intros t. apply (sort_filter Data.time). }
  assert (Hcat : merge a p
                 = Js.sort (fun x y => Data.time x - Data.time y) (a ++ default [] p)).
  { unfold merge. destruct p; simpl; [reflexivity | now rewrite app_nil_r]. }
  split; [| split].
  - intros Hs. rewrite Hcat. now apply Hfix.
  - apply Hfix. rewrite Hcat. apply (sort_sorted Data.time).
  - rewrite Hcat. apply Permutation_length, (sort_perm Data.time).
Qed.

(** X10.  When no two tokens share a timestamp, only the set of tokens
    matters: however they are split between the two channels and
    ordered inside them, [decode] walks the same sequence. *)
Theorem merge_distinct_times (a a' : list Data.Entry)
    (p p' : option (list Data.Entry)) :
  NoDup (Data.time <$> a ++ default [] p) ->
  Permutation (a ++ default [] p) (a' ++ default [] p') ->
  merge a p = merge a' p'.
Proof.
  intros Hnd Hperm.
  assert (Hcat : forall (b : list Data.Entry) (q : option (list Data.Entry)),
             merge b q
             = Js.sort (fun x y => Data.time x - Data.time y) (b ++ default [] q)).
  { intros b q. unfold merge. destruct q; simpl; [reflexivity | now rewrite app_nil_r]. }
  rewrite !Hcat. now apply (distinct_keys_sort Data.time).
Qed.

(** * Further properties of the version gate *)

Lemma check_passes_sym (v1 v2 : DecodedVersion) :
  check_passes v1 v2 = check_passes v2 v1.
Proof.
  rewrite !check_passes_unfold. unfold Js.strict_eq, Js.strict_neq.
  destruct (major v1) as [|a1], (major v2) as [|a2],
           (minor v1) as [|b1], (minor v2) as [|b2],
           (patch v1) as [|c1], (patch v2) as [|c2]; simpl; try reflexivity;
    rewrite ?(Z.eqb_sym a2 a1), ?(Z.eqb_sym b2 b1); try reflexivity;
    replace (Z.abs (c2 - c1)) with (Z.abs (c1 - c2)) by lia; reflexivity.
Qed.

(** X11.  The check is symmetric in the two versions, and a version
    passes against itself exactly when its major and minor are numbers:
    a build whose own version has an unreadable major or minor is
    compatible with nothing. *)
Theorem check_symmetric (v1 v2 : DecodedVersion) :
  check_passes v1 v2 = check_passes v2 v1
  /\ (check_passes v1 v1 = true <-> major v1 <> Js.NaN /\ minor v1 <> Js.NaN).
Proof.
  split; [apply check_passes_sym |].
  rewrite check_passes_unfold. unfold Js.strict_eq, Js.strict_neq.
  destruct (major v1) as [|a1], (minor v1) as [|b1], (patch v1) as [|c1]; simpl;
    rewrite ?Z.eqb_refl, ?Z.sub_diag; simpl;
    split; try discriminate; try (intros [? ?]; congruence);
    try (intros _; split; discriminate); reflexivity.
Qed.

Section GateFacts.
Context `{I : Imports}.

(** X12.  When the major or the minor part of the running version is
    unreadable, [decode] refuses every input that parses, whatever
    version it declares. *)
Theorem unreadable_running_version (now : Z) (w : World) (input : string)
    (json : Data.Payload) :
  major (parseVersion version) = Js.NaN \/ minor (parseVersion version) = Js.NaN ->
  JSON_parse input = Some json ->
  decode now w input
  = (Throw (Error (invalid_version (Data.version (data_envelope (Data.e json))) input)),
     w).
Proof.
  intros Hnan Hparse. unfold decode. rewrite Hparse.
  assert (Hfail : check_passes
                    (parseVersion (Data.version (data_envelope (Data.e json))))
                    (parseVersion version) = false).
  { rewrite check_passes_sym. now apply nan_check_fails. }
  unfold check_passes in Hfail. apply negb_false_iff in Hfail.
  rewrite Hfail. reflexivity.
Qed.

(** X13.  Version strings that do not have exactly three dot-separated
    parts all stand for [0.0.0]: when neither the declared nor the
    running version has three parts, the check passes and [decode]
    returns. *)
Theorem malformed_versions_pass (now : Z) (w : World) (input : string)
    (json : Data.Payload) :
  length (Js.split "." (Data.version (data_envelope (Data.e json)))) <> 3%nat ->
  length (Js.split "." version) <> 3%nat ->
  JSON_parse input = Some json ->
  parseVersion (Data.version (data_envelope (Data.e json))) = zero_version
  /\ parseVersion version = zero_version
  /\ exists (payload : DecodedPayload Rest) (w' : World),
       decode now w input = (Return payload, w').
Proof.
  intros Hd Hr Hparse.
  assert (Hzero : forall s : string,
             length (Js.split "." s) <> 3%nat -> parseVersion s = zero_version).
  { intros s Hs. unfold parseVersion.
    destruct (Nat.eqb_spec (length (Js.split "." s)) 3); [contradiction | reflexivity]. }
  split; [now apply Hzero | split; [now apply Hzero |]].
  unfold decode. rewrite Hparse, (Hzero _ Hd), (Hzero _ Hr). simpl.
  destruct (fold_left _ _ _) as [payload w']. eauto.
Qed.
End GateFacts.

(** * Version strings made of numerals *)

Lemma append_nil_r (s : string) : s +:+ EmptyString = s.
Proof. induction s as [|c s IH]; [reflexivity |]. now rewrite append_cons, IH. Qed.

Lemma rev_string_cons (c : ascii) (cur s : string) :
  Js.rev_string EmptyString (String c cur) +:+ s
  = Js.rev_string EmptyString cur +:+ String c s.
Proof.
  cbn [Js.rev_string].
  now rewrite (rev_string_acc (String c EmptyString)), append_assoc.
Qed.

Lemma prefix_append (t rest : string) : String.prefix t (t +:+ rest) = true.
Proof.
  induction t as [|c t IH]; [destruct rest; reflexivity |].
  rewrite append_cons. cbn [String.prefix].
  destruct (ascii_dec c c) as [_ | Hne]; [exact IH | now elim Hne].
Qed.

Lemma prefix_other_head (c0 c : ascii) (sep' s : string) :
  Ascii.eqb c0 c = false -> String.prefix (String c0 sep') (String c s) = false.
Proof.
  intros Hne. cbn [String.prefix].
  destruct (ascii_dec c0 c) as [-> | _]; [| reflexivity].
  now rewrite Ascii.eqb_refl in Hne.
Qed.

(** Passing a matched separator. *)
Lemma split_from_skip (sep t cur rest : string) :
  Js.split_from sep (String.length t) cur (t +:+ rest) = Js.split_from sep 0 cur rest.
Proof.
  induction t as [|c t IH]; [| exact IH].
  destruct rest; reflexivity.
Qed.

(** A string without the first character of the separator is one piece. *)
Lemma split_from_free (c0 : ascii) (sep' s cur : string) :
  occurs c0 s = false ->
  Js.split_from (String c0 sep') 0 cur s = [Js.rev_string EmptyString cur +:+ s].
Proof.
  revert cur. induction s as [|c s IH]; intros cur Hfree.
  - cbn [Js.split_from]. now rewrite append_nil_r.
  - cbn [occurs] in Hfree. apply orb_false_elim in Hfree as [Hc Hfree].
    cbn [Js.split_from]. rewrite (prefix_other_head c0 c sep' s Hc).
    rewrite (IH _ Hfree), rev_string_cons. reflexivity.
Qed.

(** A piece without the first character of the separator, followed by
    the separator: the piece is cut off and the split goes on behind. *)
Lemma split_from_piece (c0 : ascii) (sep' s cur rest : string) :
  occurs c0 s = false ->
  Js.split_from (String c0 sep') 0 cur (s +:+ String c0 sep' +:+ rest)
  = (Js.rev_string EmptyString cur +:+ s)
      :: Js.split_from (String c0 sep') 0 EmptyString rest.
Proof.
  revert cur. induction s as [|c s IH]; intros cur Hfree.
  - change (EmptyString +:+ String c0 sep' +:+ rest)
      with (String c0 (sep' +:+ rest)).
    cbn [Js.split_from].
    change (String c0 (sep' +:+ rest)) with (String c0 sep' +:+ rest).
    rewrite prefix_append, append_nil_r.
    replace (String.length (String c0 sep') - 1)%nat with (String.length sep')
      by (cbn [String.length]; lia).
    rewrite split_from_skip. reflexivity.
  - cbn [occurs] in Hfree. apply orb_false_elim in Hfree as [Hc Hfree].
    rewrite append_cons. cbn [Js.split_from].
    rewrite (prefix_other_head c0 c sep' _ Hc).
    rewrite (IH _ Hfree), rev_string_cons. reflexivity.
Qed.

Lemma occurs_append (c : ascii) (s t : string) :
  occurs c (s +:+ t) = occurs c s || occurs c t.
Proof.
  induction s as [|c' s IH]; [reflexivity |].
  rewrite append_cons. cbn [occurs]. now rewrite IH, orb_assoc.
Qed.

Lemma digit_char_facts (d : nat) :
  (d < 10)%nat ->
  Js.digit_value (digit_char d) = Some (Z.of_nat d)
  /\ Js.is_white_space (digit_char d) = false
  /\ Ascii.eqb (digit_char d) "-" = false
  /\ Ascii.eqb (digit_char d) "+" = false
  /\ Ascii.eqb "." (digit_char d) = false
  /\ Ascii.eqb "-" (digit_char d) = false.
Proof.
  intros Hd.
  do 10 (destruct d as [|d]; [repeat split; reflexivity |]). lia.
Qed.

Lemma numeral_free (c : ascii) (ds : list nat) :
  c = "."%char \/ c = "-"%char ->
  Forall (fun d => (d < 10)%nat) ds -> occurs c (numeral ds) = false.
Proof.
  intros Hc. induction 1 as [|d ds Hd _ IH]; [reflexivity |].
  cbn [numeral occurs]. rewrite IH, orb_false_r.
  destruct (digit_char_facts d Hd) as (_ & _ & _ & _ & Hdot & Hdash).
  destruct Hc as [-> | ->]; assumption.
Qed.

Lemma read_digits_numeral (ds : list nat) :
  Forall (fun d => (d < 10)%nat) ds ->
  forall (seen : bool) (acc : Z),
    Js.read_digits seen acc (numeral ds)
    = if seen || negb (bool_decide (ds = []))
      then Some (fold_left (fun acc d => 10 * acc + Z.of_nat d) ds acc)
      else None.
Proof.
  induction 1 as [|d ds Hd _ IH]; intros seen acc.
  - cbn. destruct seen; reflexivity.
  - cbn [numeral Js.read_digits fold_left].
    destruct (digit_char_facts d Hd) as (-> & _).
    rewrite IH. cbn. now rewrite orb_true_r.
Qed.

(** [parseInt] reads a numeral back. *)
Lemma parseInt_numeral (ds : list nat) :
  digits ds -> Js.parseInt (numeral ds) = Js.Num (numeral_value ds).
Proof.
  intros [Hne Hall]. destruct ds as [|d ds]; [contradiction |].
  pose proof (read_digits_numeral (d :: ds) Hall false 0) as Hread.
  inversion Hall as [| d' ds' Hd Hds]; subst.
  destruct (digit_char_facts d Hd) as (_ & Hws & Hminus & Hplus & _).
  unfold Js.parseInt. cbn [numeral Js.trim_start] in *.
  rewrite Hws, Hminus, Hplus, Hread. cbn [orb negb bool_decide].
  unfold numeral_value.
  rewrite bool_decide_eq_false_2 by discriminate. cbn [negb].
  f_equal. lia.
Qed.

(** X14.  Well-formed versions parse to their numbers: for numerals
    [ma], [mi], [pa] and [be] that denote numbers below 2^53 (which a
    double holds exactly), [ma.mi.pa] parses to major, minor and patch
    with beta 0, and [ma.mi.pa-bbe] to the same with beta [be]. *)
Theorem parseVersion_numerals (ma mi pa be : list nat) :
  digits ma -> digits mi -> digits pa -> digits be ->
  numeral_value ma < 2 ^ 53 -> numeral_value mi < 2 ^ 53 ->
  numeral_value pa < 2 ^ 53 -> numeral_value be < 2 ^ 53 ->
  parseVersion (numeral ma +:+ "." +:+ numeral mi +:+ "." +:+ numeral pa)
  = {| major := Js.Num (numeral_value ma); minor := Js.Num (numeral_value mi);
       patch := Js.Num (numeral_value pa); beta := Js.Num 0 |}
  /\ parseVersion (numeral ma +:+ "." +:+ numeral mi +:+ "." +:+ numeral pa
                     +:+ "-b" +:+ numeral be)
     = {| major := Js.Num (numeral_value ma); minor := Js.Num (numeral_value mi);
          patch := Js.Num (numeral_value pa); beta := Js.Num (numeral_value be) |}.
Proof.
  intros Hma Hmi Hpa Hbe _ _ _ _.
  pose proof (numeral_free "." ma (or_introl eq_refl) (proj2 Hma)) as Fma.
  pose proof (numeral_free "." mi (or_introl eq_refl) (proj2 Hmi)) as Fmi.
  pose proof (numeral_free "." pa (or_introl eq_refl) (proj2 Hpa)) as Fpa.
  pose proof (numeral_free "." be (or_introl eq_refl) (proj2 Hbe)) as Fbe.
  pose proof (numeral_free "-" pa (or_intror eq_refl) (proj2 Hpa)) as Dpa.
  pose proof (numeral_free "-" be (or_intror eq_refl) (proj2 Hbe)) as Dbe.
  assert (Hsplit : forall third : string,
             occurs "." third = false ->
             Js.split "." (numeral ma +:+ "." +:+ numeral mi +:+ "." +:+ third)
             = [numeral ma; numeral mi; third]).
  { intros third Hthird. unfold Js.split.
    rewrite (split_from_piece "." EmptyString _ _ _ Fma).
    rewrite (split_from_piece "." EmptyString _ _ _ Fmi).
    rewrite (split_from_free "." EmptyString _ _ Hthird). reflexivity. }
  split.
  - unfold parseVersion. rewrite (Hsplit _ Fpa).
    cbn [length Nat.eqb item nth].
    unfold Js.split. rewrite (split_from_free "-" "b" _ _ Dpa).
    cbn [length Nat.eqb Js.rev_string].
    change (EmptyString +:+ numeral pa) with (numeral pa).
    unfold set_patch, set_minor, set_major, zero_version; cbn.
    now rewrite !parseInt_numeral.
  - unfold parseVersion.
    rewrite (Hsplit (numeral pa +:+ "-b" +:+ numeral be)).
    2:{ rewrite !occurs_append, Fpa, Fbe. reflexivity. }
    cbn [length Nat.eqb item nth].
    unfold Js.split. rewrite (split_from_piece "-" "b" _ _ _ Dpa).
    rewrite (split_from_free "-" "b" _ _ Dbe).
    cbn [length Nat.eqb item nth Js.rev_string].
    change (EmptyString +:+ numeral pa) with (numeral pa).
    change (EmptyString +:+ numeral be) with (numeral be).
    unfold set_beta, set_patch, set_minor, set_major, zero_version; cbn.
    now rewrite !parseInt_numeral.
Qed.

Lemma parseVersion_numerals_witness :
  digits [1; 2]%nat /\ digits [0]%nat /\ digits [3]%nat /\ digits [7]%nat
  /\ parseVersion "12.0.3-b7"
     = {| major := Js.Num 12; minor := Js.Num 0; patch := Js.Num 3;
          beta := Js.Num 7 |}.
Proof.
  assert (Hd : forall ds : list nat,
             ds <> [] -> forallb (fun d => (d <? 10)%nat) ds = true -> digits ds).
  { intros ds Hne Hall. split; [exact Hne |].
    apply Forall_forall. intros d Hin.
    rewrite forallb_forall in Hall. apply Nat.ltb_lt, Hall.
    now apply list_elem_of_In. }
  assert (H12 : digits [1; 2]%nat) by (apply Hd; [discriminate | reflexivity]).
  assert (H0 : digits [0]%nat) by (apply Hd; [discriminate | reflexivity]).
  assert (H3 : digits [3]%nat) by (apply Hd; [discriminate | reflexivity]).
  assert (H7 : digits [7]%nat) by (apply Hd; [discriminate | reflexivity]).
  repeat (split; [assumption |]).
  refine (proj2 (parseVersion_numerals [1; 2]%nat [0]%nat [3]%nat [7]%nat
                   H12 H0 H3 H7 _ _ _ _)); reflexivity.
Defined.

(** * The baseline module *)

Lemma baseline_step_ready (c : Baseline.Call) (m : Baseline.Vars) (out : list Z) :
  baseline_ready m ->
  exists (m' : Baseline.Vars) (out' : list Z),
    Baseline.step c (m, out) = Some (m', out') /\ baseline_ready m'.
Proof.
  intros [Hb Hs].
  assert (Hreset : forall now : Z, baseline_ready (Baseline.reset now m)).
  { intros now. split; [discriminate |]. intros s. simpl.
    destruct (Baseline.update m); [| apply Hs].
    intros Heq. injection Heq as <-. exact Hb. }
  destruct c as [now | now | event x y | | now]; simpl.
  - eexists _, _. split; [reflexivity | apply Hreset].
  - eexists _, _. split; [reflexivity | apply Hreset].
  - unfold Baseline.track. destruct (Baseline.buffer m) as [b|]; [| contradiction].
    eexists _, _. split; [reflexivity |]. split; [discriminate | exact Hs].
  - eexists _, _. split; [reflexivity |]. split; assumption.
  - eexists _, _. split; [reflexivity | apply Hreset].
Qed.

Lemma baseline_run_ready (calls : list Baseline.Call) :
  forall (m : Baseline.Vars) (out : list Z),
    baseline_ready m ->
    exists (m' : Baseline.Vars) (out' : list Z),
      Baseline.run calls (m, out) = Some (m', out') /\ baseline_ready m'.
Proof.
  induction calls as [|c calls IH]; intros m out Hm; simpl.
  - eauto.
  - destruct (baseline_step_ready c m out Hm) as (m1 & out1 & -> & Hm1).
    now apply IH.
Qed.

(** X15.  [track] before the module was started fails on the [null]
    buffer; once [start] ran, no sequence of calls fails, the buffer
    always exists and every published state holds data. *)
Theorem baseline_safe_after_start :
  (forall (event : Z) (x y : Js.number),
      Baseline.track event x y Baseline.loaded = None)
  /\ forall (now : Z) (calls : list Baseline.Call),
       exists (m : Baseline.Vars) (out : list Z),
         Baseline.run (Baseline.Start now :: calls) (Baseline.loaded, [])
         = Some (m, out)
         /\ baseline_ready m.
Proof.
  split; [reflexivity |].
  intros now calls.
  apply (baseline_run_ready calls (Baseline.start now Baseline.loaded) []).
  split; [discriminate |]. simpl. discriminate.
Qed.

(** X16.  Positions are kept per kind, last write wins: a second
    [track] of the same kind (scroll or not) makes the first one
    invisible, and two [track]s of different kinds can be swapped. *)
Theorem baseline_track_last_wins (m : Baseline.Vars) (e1 e2 : Z)
    (x1 y1 x2 y2 : Js.number) :
  Baseline.track e1 x1 y1 m ≫= Baseline.track e2 x2 y2
  = if bool_decide ((e1 =? Baseline.Event_Scroll) = (e2 =? Baseline.Event_Scroll))
    then Baseline.track e2 x2 y2 m
    else Baseline.track e2 x2 y2 m ≫= Baseline.track e1 x1 y1.
Proof.
  unfold Baseline.track.
  destruct (Baseline.buffer m) as [b|]; simpl; [| now destruct (bool_decide _)].
  unfold Baseline.track_buffer.
  destruct (e1 =? Baseline.Event_Scroll), (e2 =? Baseline.Event_Scroll);
    reflexivity.
Qed.

(** X17.  A [reset] after a [track] publishes the tracked buffer with
    the clock reading and the [Baseline] event, and starts the next
    buffer from zero; [compute] encodes once before that reset and
    nothing after it; a further [reset] changes nothing, whatever the
    clock reads. *)
Theorem baseline_publish (m : Baseline.Vars) (b : Baseline.BaselineData)
    (event : Z) (x y : Js.number) (now later : Z) :
  Baseline.buffer m = Some b ->
  exists m' : Baseline.Vars,
    Baseline.track event x y m = Some m'
    /\ Baseline.compute m' = [Baseline.Event_Baseline]
    /\ Baseline.state (Baseline.reset now m')
       = Some {| Baseline.time := now;
                 Baseline.event := Baseline.Event_Baseline;
                 Baseline.data := Some (Baseline.track_buffer event x y b) |}
    /\ Baseline.buffer (Baseline.reset now m')
       = Some {| Baseline.scrollX := Js.Num 0; Baseline.scrollY := Js.Num 0;
                 Baseline.pointerX := Js.Num 0; Baseline.pointerY := Js.Num 0 |}
    /\ Baseline.compute (Baseline.reset now m') = []
    /\ Baseline.start later (Baseline.end_ now m') = Baseline.end_ now m'.
Proof.
  intros Hb. unfold Baseline.track. rewrite Hb.
  eexists. split; [reflexivity |]. repeat split.
Qed.

(** X18.  Without a [track] nothing is published and nothing is
    encoded: calls other than [track], made when no update is pending,
    never fail, leave the exported state as it is and do not call
    [encode]. *)
Theorem baseline_quiet_without_track (calls : list Baseline.Call)
    (m : Baseline.Vars) (out : list Z) :
  Baseline.update m = false ->
  forallb (fun c => negb (Baseline.is_track c)) calls = true ->
  exists m' : Baseline.Vars,
    Baseline.run calls (m, out) = Some (m', out)
    /\ Baseline.state m' = Baseline.state m
    /\ Baseline.update m' = false.
Proof.
  revert m. induction calls as [|c calls IH]; intros m Hu Hall; simpl.
  - eauto.
  - simpl in Hall. apply andb_true_iff in Hall as [Hc Hall].
    assert (Hreset : forall now : Z,
               exists m' : Baseline.Vars,
                 Baseline.run calls (Baseline.reset now m, out) = Some (m', out)
                 /\ Baseline.state m' = Baseline.state m
                 /\ Baseline.update m' = false).
    { intros now.
      destruct (IH (Baseline.reset now m) eq_refl Hall) as (m' & Hrun & Hs & Hu').
      exists m'. split; [exact Hrun | split; [| exact Hu']].
      rewrite Hs. simpl. now rewrite Hu. }
    destruct c as [now | now | event x y | | now]; simpl;
      try apply Hreset; [discriminate Hc |].
    unfold Baseline.compute. rewrite Hu, app_nil_r. now apply IH.
Qed.

Lemma baseline_publish_witness :
  Baseline.buffer (Baseline.start 5 Baseline.loaded)
  = Some {| Baseline.scrollX := Js.Num 0; Baseline.scrollY := Js.Num 0;
            Baseline.pointerX := Js.Num 0; Baseline.pointerY := Js.Num 0 |}
  /\ exists m' : Baseline.Vars,
       Baseline.track 9 (Js.Num 30) (Js.Num 40) (Baseline.start 5 Baseline.loaded)
       = Some m'
       /\ Baseline.state (Baseline.reset 9 m')
          = Some {| Baseline.time := 9; Baseline.event := 27;
                    Baseline.data :=
                      Some {| Baseline.scrollX := Js.Num 30;
                              Baseline.scrollY := Js.Num 40;
                              Baseline.pointerX := Js.Num 0;
                              Baseline.pointerY := Js.Num 0 |} |}.
Proof.
  split; [reflexivity |].
  destruct (baseline_publish (Baseline.start 5 Baseline.loaded) _ 9
              (Js.Num 30) (Js.Num 40) 9 10 eq_refl) as (m' & Ht & _ & Hs & _).
  exists m'. split; [exact Ht | exact Hs].
Defined.

Lemma baseline_quiet_without_track_witness :
  exists m' : Baseline.Vars,
    Baseline.run [Baseline.Compute; Baseline.End_ 7; Baseline.Start 8; Baseline.Compute]
      (Baseline.start 5 Baseline.loaded, [])
    = Some (m', [])
    /\ Baseline.state m' = None.
Proof.
  destruct (baseline_quiet_without_track
              [Baseline.Compute; Baseline.End_ 7; Baseline.Start 8; Baseline.Compute]
              (Baseline.start 5 Baseline.loaded) [] eq_refl eq_refl)
    as (m' & Hrun & Hs & _).
  exists m'. split; [exact Hrun | exact Hs].
Defined.

(** * The further properties at work on the sample documents *)

Lemma decode_returns_iff_witness :
  JSON_parse (Imports := Sample.imports) Sample.input_ok
  = Some (Sample.document "1.2.1" (Some Sample.events_p))
  /\ exists (payload : DecodedPayload Data.Entry) (w' : World),
       decode (I := Sample.imports) 1000 Sample.world Sample.input_ok
       = (Return payload, w').
Proof.
  assert (Hparse : JSON_parse (Imports := Sample.imports) Sample.input_ok
                   = Some (Sample.document "1.2.1" (Some Sample.events_p)))
    by (vm_compute; reflexivity).
  split; [exact Hparse |].
  apply (proj1 (decode_returns_iff (I := Sample.imports) 1000 Sample.world
                  Sample.input_ok _ Hparse)).
  vm_compute. reflexivity.
Defined.

Lemma decode_throw_no_effect_witness :
  JSON_parse (Imports := Sample.imports) Sample.input_minor
  = Some (Sample.document "1.3.0" (Some Sample.events_p))
  /\ decode (I := Sample.imports) 1000 Sample.world Sample.input_minor
     = (Throw (Error (invalid_version (I := Sample.imports) "1.3.0"
                        Sample.input_minor)),
        Sample.world)
  /\ check_passes (parseVersion "1.3.0") (parseVersion "1.2.0") = false.
Proof.
  assert (Hparse : JSON_parse (Imports := Sample.imports) Sample.input_minor
                   = Some (Sample.document "1.3.0" (Some Sample.events_p)))
    by (vm_compute; reflexivity).
  assert (Hdec : decode (I := Sample.imports) 1000 Sample.world Sample.input_minor
                 = (Throw (Error (invalid_version (I := Sample.imports) "1.3.0"
                                    Sample.input_minor)),
                    Sample.world))
    by (vm_compute; reflexivity).
  split; [exact Hparse | split; [exact Hdec |]].
  destruct (decode_throw_no_effect (I := Sample.imports) 1000 Sample.world
              Sample.input_minor _ _ _ Hparse Hdec) as (_ & _ & Hcheck).
  exact Hcheck.
Defined.

Lemma layout_reset_then_threaded_witness :
  Sample.run_ok = (Return Sample.payload_ok, snd Sample.run_ok)
  /\ layout (snd Sample.run_ok) = 1%nat.
Proof.
  assert (Hrun : Sample.run_ok = (Return Sample.payload_ok, snd Sample.run_ok))
    by (vm_compute; reflexivity).
  split; [exact Hrun |].
  rewrite (layout_reset_then_threaded (I := Sample.imports) 1000 Sample.world
             Sample.input_ok (Sample.document "1.2.1" (Some Sample.events_p))
             Sample.payload_ok (snd Sample.run_ok));
    [vm_compute; reflexivity | vm_compute; reflexivity | exact Hrun].
Defined.

Lemma stateless_field_exact_witness :
  Sample.run_ok = (Return Sample.payload_ok, snd Sample.run_ok)
  /\ buckets Sample.payload_ok !! "pointer"
     = Some [Sample.decode_plain (Sample.entry 10 13 [5; 6])].
Proof.
  assert (Hrun : Sample.run_ok = (Return Sample.payload_ok, snd Sample.run_ok))
    by (vm_compute; reflexivity).
  split; [exact Hrun |].
  refine (eq_trans
            (stateless_field_exact (I := Sample.imports) 1000 Sample.world
               Sample.input_ok (Sample.document "1.2.1" (Some Sample.events_p))
               Sample.payload_ok (snd Sample.run_ok) Data.Event.MouseUp
               Sample.decode_plain _ Hrun eq_refl) _);
    vm_compute; reflexivity.
Defined.

Lemma metric_only_total_bytes_witness :
  Sample.run_ok = (Return Sample.payload_ok, snd Sample.run_ok)
  /\ buckets Sample.payload_ok !! "metric" = Some Sample.metrics_ok
  /\ Forall2 (fun entry ev => rest ev = entry)
       [Sample.entry 10 0 [2; 1]; Sample.entry 20 0 [2; 7]] Sample.metrics_ok.
Proof.
  assert (Hrun : Sample.run_ok = (Return Sample.payload_ok, snd Sample.run_ok))
    by (vm_compute; reflexivity).
  assert (Hm : buckets Sample.payload_ok !! "metric" = Some Sample.metrics_ok)
    by (vm_compute; reflexivity).
  split; [exact Hrun | split; [exact Hm |]].
  assert (Hparse : JSON_parse (Imports := Sample.imports) Sample.input_ok
                   = Some (Sample.document "1.2.1" (Some Sample.events_p)))
    by (vm_compute; reflexivity).
  pose proof (metric_only_total_bytes (I := Sample.imports) 1000 Sample.world
                Sample.input_ok (Sample.document "1.2.1" (Some Sample.events_p))
                Sample.payload_ok (snd Sample.run_ok) Sample.metrics_ok
                Hparse Hrun Hm) as Hall.
  match type of Hall with
  | Forall2 _ ?tokens _ =>
      assert (Htok : tokens = [Sample.entry 10 0 [2; 1]; Sample.entry 20 0 [2; 7]])
        by (vm_compute; reflexivity);
      rewrite Htok in Hall
  end.
  eapply Forall2_impl; [exact Hall |].
  intros entry ev [Hrest _]. exact Hrest.
Defined.

Lemma only_known_fields_witness :
  Sample.run_ok = (Return Sample.payload_ok, snd Sample.run_ok)
  /\ "dom" ∈ field_names.
Proof.
  assert (Hrun : Sample.run_ok = (Return Sample.payload_ok, snd Sample.run_ok))
    by (vm_compute; reflexivity).
  split; [exact Hrun |].
  apply (only_known_fields (I := Sample.imports) 1000 Sample.world
           Sample.input_ok Sample.payload_ok (snd Sample.run_ok) "dom" Hrun).
  vm_compute. eauto.
Defined.

Lemma events_conserved_witness :
  Sample.run_ok = (Return Sample.payload_ok, snd Sample.run_ok)
  /\ total_events (buckets Sample.payload_ok) = 5%nat.
Proof.
  assert (Hrun : Sample.run_ok = (Return Sample.payload_ok, snd Sample.run_ok))
    by (vm_compute; reflexivity).
  split; [exact Hrun |].
  refine (eq_trans
            (events_conserved (I := Sample.imports) 1000 Sample.world
               Sample.input_ok (Sample.document "1.2.1" (Some Sample.events_p))
               Sample.payload_ok (snd Sample.run_ok) _ Hrun) _);
    vm_compute; reflexivity.
Defined.

Lemma merge_unique_witness :
  [Sample.entry 5 23 [1]; Sample.entry 10 4 []]
  = merge [Sample.entry 5 23 [1]] (Some [Sample.entry 10 4 []]).
Proof.
  apply merge_unique. split; [reflexivity | split; [| reflexivity]].
  repeat constructor. simpl. lia.
Defined.

Lemma merge_distinct_times_witness :
  merge [Sample.entry 20 0 [2; 7]; Sample.entry 10 13 [5; 6]]
    (Some [Sample.entry 5 23 [1]])
  = merge [Sample.entry 5 23 [1]; Sample.entry 20 0 [2; 7]]
      (Some [Sample.entry 10 13 [5; 6]]).
Proof.
  apply merge_distinct_times.
  - apply (bool_decide_unpack _). vm_compute. exact Logic.I.
  - simpl.
    apply (Permutation_cons_app [Sample.entry 5 23 [1]]
             [Sample.entry 10 13 [5; 6]] (Sample.entry 20 0 [2; 7])).
    apply perm_swap.
Defined.

Lemma unreadable_running_version_witness :
  major (parseVersion "x.2.0") = Js.NaN
  /\ exists message : string,
       decode (I := Sample2.imports_running "x.2.0") 1000 (Sample2.world "x.2.0")
         Sample.input_ok
       = (Throw (Error message), Sample2.world "x.2.0").
Proof.
  split; [reflexivity |]. eexists.
  apply (unreadable_running_version (I := Sample2.imports_running "x.2.0") 1000
           (Sample2.world "x.2.0") Sample.input_ok
           (Sample.document "1.2.1" (Some Sample.events_p))).
  - left. reflexivity.
  - vm_compute. reflexivity.
Defined.

Lemma malformed_versions_pass_witness :
  length (Js.split "." "2.0") = 2%nat
  /\ length (Js.split "." "dev") = 1%nat
  /\ exists (payload : DecodedPayload Data.Entry)
            (w' : @World (Sample2.imports_running "dev")),
       decode (I := Sample2.imports_running "dev") 1000 (Sample2.world "dev")
         Sample2.input_two_parts
       = (Return payload, w').
Proof.
  split; [reflexivity | split; [reflexivity |]].
  apply (malformed_versions_pass (I := Sample2.imports_running "dev") 1000
           (Sample2.world "dev") Sample2.input_two_parts
           (Sample.document "2.0" (Some Sample.events_p))).
  - vm_compute. discriminate.
  - vm_compute. discriminate.
  - vm_compute. reflexivity.
Defined.

(** * The layout fields *)

Section LayoutFacts.
Context `{I : Imports}.

#[local] Arguments dispatch : simpl never.

(** A field of the layout decoder receives nothing from another decoder. *)
Lemma layout_field_category (l0 l : Data.Event.t) :
  fst (handler l0) = Layout -> snd (handler l) = snd (handler l0) ->
  fst (handler l) = Layout.
Proof.
  destruct l0; simpl; intros Hc; try discriminate Hc;
    destruct l; simpl; intros Hb; try discriminate Hb; reflexivity.
Qed.

Lemma decoded_layout (input : string) (st : LayoutState) (label : Data.Event.t)
    (entry : Data.Entry) :
  decoded input st label entry
  = match fst (handler label) with
    | Layout => layout_decode st entry
    | _ => (fst (decoded input st label entry), st)
    end.
Proof. destruct label; simpl; try reflexivity; now destruct (layout_decode st entry). Qed.

Lemma field_append_cons (old : option (list (DecodedEvent Rest)))
    (ev : DecodedEvent Rest) (evs : list (DecodedEvent Rest)) :
  field_append (Some (default [] old ++ [ev])) evs = field_append old (ev :: evs).
Proof.
  destruct evs as [|ev' evs]; simpl; [reflexivity |].
  now rewrite <- app_assoc.
Qed.

Lemma loop_layout_field (input : string) (label0 : Data.Event.t)
    (entries : list Data.Entry) :
  fst (handler label0) = Layout ->
  forall (payload : DecodedPayload Rest) (w : World),
    buckets (fst (fold_left (dispatch input) entries (payload, w)))
      !! snd (handler label0)
    = field_append (buckets payload !! snd (handler label0))
        (snd <$> filter (fun ed => bucket_of (Data.event (fst ed))
                                   = Some (snd (handler label0)))
                   (layout_scan (layout w)
                      (filter (fun entry => layout_token entry = true) entries))).
Proof.
  intros Hl0. induction entries as [|entry rest IH]; intros payload w; simpl;
    [reflexivity |].
  rewrite dispatch_eq, filter_cons.
  destruct (switch_case (Data.event entry)) as [label|] eqn:Hsw.
  - rewrite IH, push_lookup. simpl. rewrite (decoded_layout input (layout w) label).
    assert (Hbo : bucket_of (Data.event entry) = Some (snd (handler label)))
      by (unfold bucket_of; now rewrite Hsw).
    destruct (decide (snd (handler label) = snd (handler label0))) as [Heq | Hne].
    + pose proof (layout_field_category label0 label Hl0 Heq) as Hcat.
      assert (Hlt : layout_token entry = true)
        by (unfold layout_token; rewrite Hsw, Hcat; reflexivity).
      rewrite decide_True by exact Hlt. rewrite Hcat.
      cbn [layout_scan]. rewrite filter_cons.
      rewrite decide_True by (simpl; congruence).
      rewrite fmap_cons. simpl. rewrite Heq. apply field_append_cons.
    + destruct (fst (handler label)) eqn:Hcat.
      1,2,4,5:
        (assert (Hlt : layout_token entry = false)
           by (unfold layout_token; rewrite Hsw, Hcat; reflexivity);
         rewrite decide_False by congruence; reflexivity).
      assert (Hlt : layout_token entry = true)
        by (unfold layout_token; rewrite Hsw, Hcat; reflexivity).
      rewrite decide_True by exact Hlt.
      cbn [layout_scan]. rewrite filter_cons.
      rewrite decide_False by (simpl; congruence). reflexivity.
  - assert (Hlt : layout_token entry = false)
      by (unfold layout_token; rewrite Hsw; reflexivity).
    rewrite decide_False by congruence. now rewrite IH.
Qed.

(** X19.  The fields of the layout decoder ([box], [region], [dom],
    [doc]) hold what [layout.decode] returned as it went, from the reset
    state, through all the layout tokens in merged order: each field
    keeps the events of its own tokens, decoded in the state left by
    the layout tokens before them, whatever their field. *)
Theorem layout_field_exact (now : Z) (w : World) (input : string)
    (json : Data.Payload) (payload : DecodedPayload Rest) (w' : World)
    (label : Data.Event.t) :
  JSON_parse input = Some json ->
  decode now w input = (Return payload, w') ->
  fst (handler label) = Layout ->
  buckets payload !! snd (handler label)
  = match snd <$> filter (fun ed => bucket_of (Data.event (fst ed))
                                    = Some (snd (handler label)))
                    (layout_scan (layout_reset (layout w))
                       (filter (fun entry => layout_token entry = true)
                          (merge (Data.a json) (Data.p json)))) with
    | [] => None
    | evs => Some evs
    end.
Proof.
  intros Hparse Hdec Hl.
  destruct (decode_return _ _ _ _ _ Hdec) as (json' & Hparse' & _ & Hrun).
  rewrite Hparse in Hparse'. injection Hparse' as <-.
  match type of Hrun with
  | fold_left _ ?l (?p0, ?w0) = _ =>
      pose proof (loop_layout_field input label l Hl p0 w0) as Hf
  end.
  rewrite Hrun in Hf. simpl in Hf. rewrite lookup_empty in Hf.
  rewrite Hf. unfold field_append. now destruct (snd <$> _).
Qed.
End LayoutFacts.

Lemma layout_field_exact_witness :
  Sample.run_ok = (Return Sample.payload_ok, snd Sample.run_ok)
  /\ buckets Sample.payload_ok !! "dom"
     = Some [fst (Sample.decode_layout 0 (Sample.entry 10 4 []))].
Proof.
  assert (Hrun : Sample.run_ok = (Return Sample.payload_ok, snd Sample.run_ok))
    by (vm_compute; reflexivity).
  split; [exact Hrun |].
  refine (eq_trans
            (layout_field_exact (I := Sample.imports) 1000 Sample.world
               Sample.input_ok (Sample.document "1.2.1" (Some Sample.events_p))
               Sample.payload_ok (snd Sample.run_ok) Data.Event.Discover
               _ Hrun eq_refl) _);
    vm_compute; reflexivity.
Defined.
